(** * KeyDetectorService: tuning-reference and key detection

    A shallow embedding of [KeyDetectorService] (key-detector.service.ts):
    [detectTuningReference], [detectKey], [correlate] and [rotate].

    The service computes with JavaScript numbers.  The program is written
    once, over the interface [Number] of the operations it uses, and read at
    two implementations of that interface:

    - [float]: IEEE 754 binary64, the kernel's primitive floats, which is what
      a JavaScript engine computes with.  Everything evaluates.
    - [XR.xreal]: the real numbers extended with the three special values
      [+Infinity], [-Infinity] and [NaN]: exact arithmetic on finite values
      (no rounding, no overflow, no signed zero) and the IEEE rules on the
      special values.

    A statement about the control flow of the service is proved for every
    implementation of the interface; one that needs the order of numbers,
    for every implementation with the laws [NumberOrder], which both
    implementations have; one that needs arithmetic, in exact arithmetic; and
    what the service computes on a given input is evaluated in binary64.

    Integers that the service only counts or indexes with (lengths, loop
    counters, bin and chunk offsets) are in [nat] and [Z].  [Math.log2] and
    [Math.pow] are implementation-approximated in ECMAScript; they form the
    separate interface [MathLib].  [Meyda.extract] is a parameter of the
    development, and the two global objects the service touches are a state
    that its methods pass along. *)

From Stdlib Require Import ZArith List String Ascii Bool Lia QArith.
From Stdlib Require Import Floats.
From Stdlib Require Import Reals Lra Qreals.
Import ListNotations.

Set Warnings "-inexact-float,-notation-for-abbreviation".
Local Open Scope Z_scope.

(** ** JavaScript numbers as an interface *)

(** The result of the abstract operation [ToIntegerOrInfinity]. *)
Inductive integer_or_infinity : Type :=
| MinusInfinity
| Integer (z : Z)
| PlusInfinity.

Class Number (num : Type) : Type := {
  of_Z : Z -> num;            (* an integer literal, a length, a counter *)
  of_Q : Q -> num;            (* a decimal literal such as 0.1 or 6.35 *)
  NaN : num;
  Infinity : num;
  neg : num -> num;           (* unary minus *)
  add : num -> num -> num;
  sub : num -> num -> num;
  mul : num -> num -> num;
  div : num -> num -> num;
  lt : num -> num -> bool;    (* x < y *)
  le : num -> num -> bool;    (* x <= y *)
  Math_sqrt : num -> num;
  Math_floor : num -> num;
  Math_round : num -> num;
  Math_min : num -> num -> num;
  Math_max : num -> num -> num;
  Math_fround : num -> num;   (* the rounding of a store into a Float32Array *)
  ToIntegerOrInfinity : num -> integer_or_infinity
}.

Class MathLib (num : Type) : Type := {
  Math_log2 : num -> num;
  Math_pow : num -> num -> num
}.

Declare Scope num_scope.
Delimit Scope num_scope with num.
Infix "+" := add : num_scope.
Infix "-" := sub : num_scope.
Infix "*" := mul : num_scope.
Infix "/" := div : num_scope.
Infix "<?" := lt (at level 70, no associativity) : num_scope.
Infix "<=?" := le (at level 70, no associativity) : num_scope.
Notation "x >? y" := (lt y x) (at level 70, no associativity) : num_scope.

(** ** First implementation: binary64 *)

Module F64.

Definition of_Z (z : Z) : float := SF2Prim (binary_normalize prec emax z 0 false).

(** A decimal literal denotes the double nearest to it; so does the correctly
    rounded quotient of two integers that are doubles themselves. *)
Definition of_Q (q : Q) : float :=
  PrimFloat.div (of_Z (Qnum q)) (of_Z (Zpos (Qden q))).

(** A finite [x] with a negative exponent [e] is [n / 2^(-e)] for the signed
    mantissa [n]; with [0 <= e] it is an integer already. *)
Definition Math_floor (x : float) : float :=
  match Prim2SF x with
  | S754_finite s m e =>
      if 0 <=? e then x
      else of_Z (Z.shiftr (cond_Zopp s (Zpos m)) (- e))
  | _ => x
  end.

(** [Math.round]: the nearest integer, a tie going towards [+Infinity];
    a result of zero keeps the sign of [x]. *)
Definition Math_round (x : float) : float :=
  match Prim2SF x with
  | S754_finite s m e =>
      if 0 <=? e then x
      else
        let k := - e in
        let r := Z.shiftr (2 * cond_Zopp s (Zpos m) + Z.shiftl 1 k) (k + 1) in
        if r =? 0 then (if s then neg_zero else zero) else of_Z r
  | _ => x
  end.

Definition Math_min (x y : float) : float :=
  if is_nan x || is_nan y then nan
  else if PrimFloat.ltb x y then x
  else if PrimFloat.ltb y x then y
  else if get_sign x then x else y.       (* -0 is below +0 *)

Definition Math_max (x y : float) : float :=
  if is_nan x || is_nan y then nan
  else if PrimFloat.ltb x y then y
  else if PrimFloat.ltb y x then x
  else if get_sign x then y else x.

(** Round to nearest, ties to even, into binary32; the result is a double. *)
Definition Math_fround (x : float) : float :=
  match Prim2SF x with
  | S754_finite s m e => SF2Prim (binary_round 24 128 s m e)
  | _ => x
  end.

Definition ToIntegerOrInfinity (x : float) : integer_or_infinity :=
  match Prim2SF x with
  | S754_nan => Integer 0
  | S754_zero _ => Integer 0
  | S754_infinity s => if s then MinusInfinity else PlusInfinity
  | S754_finite s m e => Integer (cond_Zopp s (Z.shiftl (Zpos m) e))
  end.

#[global] Instance number : Number float :=
  Build_Number float
    of_Z of_Q nan infinity
    PrimFloat.opp PrimFloat.add PrimFloat.sub PrimFloat.mul PrimFloat.div
    PrimFloat.ltb PrimFloat.leb
    PrimFloat.sqrt Math_floor Math_round Math_min Math_max Math_fround
    ToIntegerOrInfinity.

End F64.

(** ** Second implementation: extended reals *)

Module XR.

Inductive xreal : Type :=
| Fin (r : R)
| PInf
| NInf
| XNaN.

Definition Rltb (a b : R) : bool := if Rlt_dec a b then true else false.
Definition Rleb (a b : R) : bool := if Rle_dec a b then true else false.
Definition Reqb (a b : R) : bool := if Req_dec_T a b then true else false.

Definition of_Z (z : Z) : xreal := Fin (IZR z).
Definition of_Q (q : Q) : xreal := Fin (Q2R q).

Definition neg (x : xreal) : xreal :=
  match x with
  | Fin r => Fin (- r)
  | PInf => NInf
  | NInf => PInf
  | XNaN => XNaN
  end.

Definition add (x y : xreal) : xreal :=
  match x, y with
  | XNaN, _ | _, XNaN => XNaN
  | Fin a, Fin b => Fin (a + b)
  | PInf, NInf | NInf, PInf => XNaN
  | PInf, _ | _, PInf => PInf
  | NInf, _ | _, NInf => NInf
  end.

Definition sub (x y : xreal) : xreal := add x (neg y).

(** An infinity ([PInf] when [pos]) times, or divided by, the finite [r]. *)
Definition scale_inf (pos : bool) (zero_case : xreal) (r : R) : xreal :=
  if Rltb r 0 then (if pos then NInf else PInf)
  else if Reqb r 0 then zero_case
  else (if pos then PInf else NInf).

Definition mul (x y : xreal) : xreal :=
  match x, y with
  | XNaN, _ | _, XNaN => XNaN
  | Fin a, Fin b => Fin (a * b)
  | PInf, Fin r | Fin r, PInf => scale_inf true XNaN r
  | NInf, Fin r | Fin r, NInf => scale_inf false XNaN r
  | PInf, PInf | NInf, NInf => PInf
  | PInf, NInf | NInf, PInf => NInf
  end.

Definition div (x y : xreal) : xreal :=
  match x, y with
  | XNaN, _ | _, XNaN => XNaN
  | Fin a, Fin b =>
      if Reqb b 0 then
        (if Rltb a 0 then NInf else if Reqb a 0 then XNaN else PInf)
      else Fin (a / b)
  | Fin _, (PInf | NInf) => Fin 0
  | PInf, Fin r => scale_inf true PInf r
  | NInf, Fin r => scale_inf false NInf r
  | (PInf | NInf), (PInf | NInf) => XNaN
  end.

Definition lt (x y : xreal) : bool :=
  match x, y with
  | Fin a, Fin b => Rltb a b
  | NInf, (Fin _ | PInf) => true
  | Fin _, PInf => true
  | _, _ => false
  end.

Definition le (x y : xreal) : bool :=
  match x, y with
  | Fin a, Fin b => Rleb a b
  | NInf, (Fin _ | PInf | NInf) => true
  | (Fin _ | PInf), PInf => true
  | _, _ => false
  end.

Definition Math_sqrt (x : xreal) : xreal :=
  match x with
  | Fin r => if Rltb r 0 then XNaN else Fin (sqrt r)
  | PInf => PInf
  | NInf | XNaN => XNaN
  end.

(** [Int_part r] is the greatest integer at most [r]. *)
Definition Math_floor (x : xreal) : xreal :=
  match x with
  | Fin r => Fin (IZR (Int_part r))
  | _ => x
  end.

Definition Math_round (x : xreal) : xreal :=
  match x with
  | Fin r => Fin (IZR (Int_part (r + / 2)))
  | _ => x
  end.

Definition Math_min (x y : xreal) : xreal :=
  match x, y with
  | XNaN, _ | _, XNaN => XNaN
  | _, _ => if lt y x then y else x
  end.

Definition Math_max (x y : xreal) : xreal :=
  match x, y with
  | XNaN, _ | _, XNaN => XNaN
  | _, _ => if lt x y then y else x
  end.

(** Exact arithmetic: a store into a [Float32Array] keeps the value. *)
Definition Math_fround (x : xreal) : xreal := x.

Definition truncate (r : R) : Z :=
  if Rltb r 0 then - Int_part (- r) else Int_part r.

Definition ToIntegerOrInfinity (x : xreal) : integer_or_infinity :=
  match x with
  | Fin r => Integer (truncate r)
  | PInf => PlusInfinity
  | NInf => MinusInfinity
  | XNaN => Integer 0
  end.

Definition Math_log2 (x : xreal) : xreal :=
  match x with
  | Fin r =>
      if Rltb r 0 then XNaN
      else if Reqb r 0 then NInf
      else Fin (ln r / ln 2)
  | PInf => PInf
  | NInf | XNaN => XNaN
  end.

Definition is_integer (r : R) : bool := Reqb (IZR (Int_part r)) r.
Definition is_odd_integer (r : R) : bool := is_integer r && Z.odd (Int_part r).

(** [Number::exponentiate], case by case as ECMAScript lists them. *)
Definition Math_pow (base exponent : xreal) : xreal :=
  match exponent with
  | XNaN => XNaN
  | PInf =>
      match base with
      | XNaN => XNaN
      | Fin b =>
          if Rltb 1 (Rabs b) then PInf
          else if Reqb (Rabs b) 1 then XNaN else Fin 0
      | _ => PInf
      end
  | NInf =>
      match base with
      | XNaN => XNaN
      | Fin b =>
          if Rltb 1 (Rabs b) then Fin 0
          else if Reqb (Rabs b) 1 then XNaN else PInf
      | _ => Fin 0
      end
  | Fin e =>
      if Reqb e 0 then Fin 1
      else
        match base with
        | XNaN => XNaN
        | PInf => if Rltb 0 e then PInf else Fin 0
        | NInf =>
            if Rltb 0 e then (if is_odd_integer e then NInf else PInf)
            else Fin 0
        | Fin b =>
            if Reqb b 0 then (if Rltb 0 e then Fin 0 else PInf)
            else if Rltb 0 b then Fin (Rpower b e)
            else if is_integer e then Fin (powerRZ b (Int_part e))
            else XNaN
        end
  end.

#[global] Instance number : Number xreal :=
  Build_Number xreal
    of_Z of_Q XNaN PInf
    neg add sub mul div lt le
    Math_sqrt Math_floor Math_round Math_min Math_max Math_fround
    ToIntegerOrInfinity.

#[global] Instance mathlib : MathLib xreal := Build_MathLib xreal Math_log2 Math_pow.

End XR.

(** ** The environment of the service *)

(** What [Meyda.extract] is asked for. *)
Inductive feature : Type :=
| amplitudeSpectrum
| chroma.

(** What a call of [Meyda.extract] does: it throws, it returns a falsy value
    ([null], [undefined]), or it returns the feature's values. *)
Inductive extracted (num : Type) : Type :=
| Threw
| Falsy
| Features (values : list num).
Arguments Threw {num}.
Arguments Falsy {num}.
Arguments Features {num} values.

(** The two global objects the service touches: Tone's context, which it
    reads, and the [audioContext] property of [Meyda], which it assigns. *)
Record World (Ctx : Type) : Type := {
  Tone_rawContext : Ctx;
  Meyda_audioContext : option Ctx
}.
Arguments Tone_rawContext {Ctx} w.
Arguments Meyda_audioContext {Ctx} w.

(** A computation that reads and writes the world. *)
Definition State (Ctx A : Type) : Type := World Ctx -> A * World Ctx.

Definition ret {Ctx A : Type} (a : A) : State Ctx A := fun w => (a, w).

Definition bind {Ctx A B : Type} (c : State Ctx A) (k : A -> State Ctx B) : State Ctx B :=
  fun w => let (a, w') := c w in k a w'.

Notation "x <- c ;; k" := (bind c (fun x => k))
  (at level 61, c at next level, right associativity).
Notation "c ;;; k" := (bind c (fun _ => k))
  (at level 61, right associativity).

(** [Tone.getContext().rawContext] *)
Definition Tone_getContext_rawContext {Ctx : Type} : State Ctx Ctx :=
  fun w => (Tone_rawContext w, w).

(** [(Meyda as any).audioContext = ctx] *)
Definition set_Meyda_audioContext {Ctx : Type} (ctx : Ctx) : State Ctx unit :=
  fun w => (tt, {| Tone_rawContext := Tone_rawContext w; Meyda_audioContext := Some ctx |}).

(** The [Meyda] object as a later [Meyda.extract] finds it. *)
Definition get_Meyda {Ctx : Type} : State Ctx (option Ctx) :=
  fun w => (Meyda_audioContext w, w).

(** The world after either estimator has run: Tone's context as it was, and
    [Meyda.audioContext] assigned to it. *)
Definition after_call {Ctx : Type} (w : World Ctx) : World Ctx :=
  {| Tone_rawContext := Tone_rawContext w;
     Meyda_audioContext := Some (Tone_rawContext w) |}.

(** ** Arrays *)

(** [a[j]]: [undefined] outside the array. *)
Definition lookup {A : Type} (a : list A) (j : Z) : option A :=
  if j <? 0 then None else nth_error a (Z.to_nat j).

(** A relative index of [slice], clamped into [0 .. len]. *)
Definition relative_index (len : Z) (x : integer_or_infinity) : Z :=
  match x with
  | MinusInfinity => 0
  | Integer z => if z <? 0 then Z.max (len + z) 0 else Z.min z len
  | PlusInfinity => len
  end.

(** [a.slice(start, end)] on integers. *)
Definition slice_int {A : Type} (a : list A) (start final : integer_or_infinity) : list A :=
  let len := Z.of_nat (List.length a) in
  let k := relative_index len start in
  let e := relative_index len final in
  firstn (Z.to_nat (e - k)) (skipn (Z.to_nat k) a).

(** [rotate(arr, n)] *)
Definition rotate {A : Type} (arr : list A) (n : Z) : list (option A) :=
  let len := Z.of_nat (List.length arr) in
  map (fun i => lookup arr (Z.rem (Z.of_nat i - n + len) len)) (seq 0 (List.length arr)).

(** ** The service *)

Section Service.

Context {num : Type} {N : Number num}.
Variable Ctx : Type.
Variable Meyda_extract : option Ctx -> feature -> list num -> extracted num.

Local Open Scope num_scope.

(** [a.slice(start, end)] on numbers. *)
Definition slice {A : Type} (a : list A) (start final : num) : list A :=
  slice_int a (ToIntegerOrInfinity start) (ToIntegerOrInfinity final).

(** An [AudioBuffer], as far as the service reads it: channel 0 and the
    sample rate.  Its [length] and [duration] are those of the Web Audio
    API: the number of sample frames, and that number over the rate. *)
Record AudioBuffer : Type := {
  channelData : list num;
  sampleRate : num
}.

Definition buffer_length (buffer : AudioBuffer) : Z :=
  Z.of_nat (List.length (channelData buffer)).

Definition buffer_duration (buffer : AudioBuffer) : num :=
  of_Z (buffer_length buffer) / sampleRate buffer.

(** [undefined], where a number is expected, is [NaN]. *)
Definition toNumber (v : option num) : num :=
  match v with
  | Some x => x
  | None => NaN
  end.

(** Krumhansl-Schmuckler profiles *)
Definition MAJOR_PROFILE : list num :=
  map of_Q [6.35; 2.23; 3.48; 2.33; 4.38; 4.09; 2.52; 5.19; 2.39; 3.66; 2.29; 2.88]%Q.
Definition MINOR_PROFILE : list num :=
  map of_Q [6.33; 2.68; 3.52; 5.38; 2.60; 3.53; 2.54; 4.75; 3.98; 2.69; 3.34; 3.17]%Q.

Definition KEYS : list string :=
  ["C"; "C#"; "D"; "D#"; "E"; "F"; "F#"; "G"; "G#"; "A"; "A#"; "B"]%string.

(** *** detectTuningReference *)

Definition fftSize : Z := 4096.
Definition chunksToAnalyze : nat := 50.

(** One turn of the peak search: [if (spectrum[k] > maxVal) ...]. *)
Definition peak_step (spectrum : list num) (st : num * Z) (k : nat) : num * Z :=
  if nth k spectrum NaN >? fst st then (nth k spectrum NaN, Z.of_nat k) else st.

(** The bins the search visits: [k = 10; k < spectrum.length / 2; k++].
    [k < length / 2] is [2 * k < length], that is [k < div2 (length + 1)]. *)
Definition peak_bins (spectrum : list num) : list nat :=
  seq 10 (Nat.div2 (S (List.length spectrum)) - 10).

(** The peak search: [(maxVal, maxBin)] when the loop ends. *)
Definition findPeak (spectrum : list num) : num * Z :=
  fold_left (peak_step spectrum) (peak_bins spectrum) (of_Z (-1), (-1)%Z).

Section Tuning.

Context {M : MathLib num}.

(** The deviation, in cents, of bin [maxBin] from the nearest A440 semitone. *)
Definition deviation_of (binSize : num) (maxBin : Z) : num :=
  let freq := of_Z maxBin * binSize in
  let midi := of_Z 69 + of_Z 12 * Math_log2 (freq / of_Z 440) in
  let nearestMidi := Math_round midi in
  (midi - nearestMidi) * of_Z 100.

(** The body of the chunk loop, on [(totalCentsDeviation, validChunks)]. *)
Definition analyzeChunk (meyda : option Ctx) (binSize : num) (chunk : list num)
    (st : num * nat) : num * nat :=
  match Meyda_extract meyda amplitudeSpectrum chunk with
  | Features spectrum =>
      let (maxVal, maxBin) := findPeak spectrum in
      if maxVal >? of_Q 0.1
      then (fst st + deviation_of binSize maxBin, S (snd st))
      else st
  | Falsy => st
  | Threw => st
  end.

(** The chunk loop over the remaining values [turns] of [i]. *)
Fixpoint chunkLoop (meyda : option Ctx) (data : list num) (binSize : num) (step : Z)
    (turns : list nat) (st : num * nat) : num * nat :=
  match turns with
  | [] => st
  | i :: rest =>
      let start := (Z.of_nat i * step)%Z in
      if (start + fftSize >? Z.of_nat (List.length data))%Z then st
      else
        let chunk := slice_int data (Integer start) (Integer (start + fftSize)) in
        chunkLoop meyda data binSize step rest (analyzeChunk meyda binSize chunk st)
  end.

Definition tuningReference (meyda : option Ctx) (buffer : AudioBuffer) : num :=
  let data := channelData buffer in
  let binSize := sampleRate buffer / of_Z fftSize in
  let step := (Z.of_nat (List.length data) / Z.of_nat chunksToAnalyze)%Z in
  let (totalCentsDeviation, validChunks) :=
    chunkLoop meyda data binSize step (seq 0 chunksToAnalyze) (of_Z 0, 0%nat) in
  if (validChunks =? 0)%nat then of_Z 440
  else
    let avgDeviation := totalCentsDeviation / of_Z (Z.of_nat validChunks) in
    let ref := of_Z 440 * Math_pow (of_Z 2) (avgDeviation / of_Z 1200) in
    Math_round ref.

Definition detectTuningReference (buffer : AudioBuffer) : State Ctx num :=
  ctx <- Tone_getContext_rawContext ;;
  set_Meyda_audioContext ctx ;;;
  meyda <- get_Meyda ;;
  ret (tuningReference meyda buffer).

End Tuning.

(** *** correlate *)

Definition correlate_step (chroma : list num) (profile : list (option num))
    (meanX meanY : num) (st : num * num * num) (i : nat) : num * num * num :=
  let '(sumXx, sumYy, sumXy) := st in
  let x := nth i chroma NaN - meanX in
  let y := toNumber (nth i profile None) - meanY in
  (sumXx + x * x, sumYy + y * y, sumXy + x * y).

Definition correlate (chroma : list num) (profile : list (option num)) : num :=
  let meanX := fold_left add chroma (of_Z 0) / of_Z 12 in
  let meanY := fold_left (fun a b => a + toNumber b) profile (of_Z 0) / of_Z 12 in
  let '(sumXx, sumYy, sumXy) :=
    fold_left (correlate_step chroma profile meanX meanY) (seq 0 12)
      (of_Z 0, of_Z 0, of_Z 0) in
  sumXy / Math_sqrt (sumXx * sumYy).

(** *** detectKey *)

Definition bufferSize : Z := 4096.
Definition hopSize : Z := 8192.

(** [for (k = 0; k < 12; k++) totalChroma[k] += chroma[k]], on a
    [Float32Array] of 12 elements. *)
Definition accumulate (totalChroma chroma : list num) : list num :=
  map (fun k => Math_fround (nth k totalChroma NaN + nth k chroma NaN)) (seq 0 12).

(** The body of the frame loop, on [(totalChroma, frames)]. *)
Definition analyzeFrame (meyda : option Ctx) (chunk : list num)
    (st : list num * nat) : list num * nat :=
  match Meyda_extract meyda chroma chunk with
  | Features values => (accumulate (fst st) values, S (snd st))
  | Falsy => st
  | Threw => st
  end.

(** The frame loop from [i] on; [fuel] bounds the number of turns. *)
Fixpoint frameLoop (meyda : option Ctx) (data : list num) (endSample : num)
    (fuel : nat) (i : num) (st : list num * nat) : list num * nat :=
  match fuel with
  | O => st
  | S fuel' =>
      if i <? endSample - of_Z bufferSize then
        let chunk := slice data i (i + of_Z bufferSize) in
        if (Z.of_nat (List.length chunk) <? bufferSize)%Z then st
        else frameLoop meyda data endSample fuel' (i + of_Z hopSize)
               (analyzeFrame meyda chunk st)
      else st
  end.

(** A key name: [`${this.KEYS[i]} Major`]. *)
Definition key_name (i : nat) (mode : string) : string :=
  (nth i KEYS "undefined" ++ " " ++ mode)%string.

(** One turn of a scoring loop, on [(bestCorrelation, bestKey)]. *)
Definition consider (avgChroma profile : list num) (mode : string)
    (st : num * string) (i : nat) : num * string :=
  let correlation := correlate avgChroma (rotate profile (Z.of_nat i)) in
  if correlation >? fst st then (correlation, key_name i mode) else st.

(** The two scoring loops: the major keys, then the minor keys. *)
Definition selectKey (avgChroma : list num) : num * string :=
  let st := (neg Infinity, EmptyString) in
  let st := fold_left (consider avgChroma MAJOR_PROFILE "Major") (seq 0 12) st in
  fold_left (consider avgChroma MINOR_PROFILE "Minor") (seq 0 12) st.

(** The analysed window [safeStart, endSample). *)
Definition durationToAnalyze (buffer : AudioBuffer) : num :=
  Math_min (of_Z 30) (buffer_duration buffer).

Definition safeStart (buffer : AudioBuffer) : num :=
  let startSample :=
    Math_floor ((buffer_duration buffer / of_Z 2 - durationToAnalyze buffer / of_Z 2)
                * sampleRate buffer) in
  Math_max (of_Z 0) startSample.

Definition endSample (buffer : AudioBuffer) : num :=
  Math_min (safeStart buffer + durationToAnalyze buffer * sampleRate buffer)
           (of_Z (buffer_length buffer)).

(** [(totalChroma, frames)] after the frame loop.  A turn that does not
    break has a full chunk, so the loop makes at most [length] turns. *)
Definition accumulateChroma (meyda : option Ctx) (buffer : AudioBuffer) : list num * nat :=
  frameLoop meyda (channelData buffer) (endSample buffer)
    (S (List.length (channelData buffer))) (safeStart buffer)
    (repeat (of_Z 0) 12, 0%nat).

Definition keyOf (meyda : option Ctx) (buffer : AudioBuffer) : string :=
  let (totalChroma, frames) := accumulateChroma meyda buffer in
  if (frames =? 0)%nat then "Unknown"%string
  else
    let avgChroma := map (fun val => val / of_Z (Z.of_nat frames)) totalChroma in
    snd (selectKey avgChroma).

Definition detectKey (buffer : AudioBuffer) : State Ctx string :=
  ctx <- Tone_getContext_rawContext ;;
  set_Meyda_audioContext ctx ;;;
  meyda <- get_Meyda ;;
  ret (keyOf meyda buffer).

End Service.

(** ** Concrete inputs *)

Module Inputs.

(** A world with one audio context, [Meyda.audioContext] not yet assigned. *)
Definition world0 : World unit :=
  {| Tone_rawContext := tt; Meyda_audioContext := None |}.

(** A spectrum of 2048 bins, as [amplitudeSpectrum] has for a window of 4096
    samples: 0.2 everywhere, and a peak of 5 at bin 1500. *)
Definition spectrum_high_peak : list float :=
  repeat 0.2%float (Z.to_nat 1500) ++ 5%float :: repeat 0.2%float (Z.to_nat 547).

(** A buffer of [n] samples, each [v], at [rate] Hz. *)
Definition constant_buffer (v : float) (n : Z) (rate : float) : AudioBuffer :=
  {| channelData := repeat v (Z.to_nat n); sampleRate := rate |}.

(** Meyda on silence: a chroma vector and a spectrum of zeros. *)
Definition extract_silence : option unit -> feature -> list float -> extracted float :=
  fun _ f _ =>
    match f with
    | chroma => Features (repeat 0%float 12)
    | amplitudeSpectrum => Features (repeat 0%float (Z.to_nat 2048))
    end.

(** A Meyda whose chroma is, for every frame, the major profile. *)
Definition extract_major : option unit -> feature -> list float -> extracted float :=
  fun _ f _ =>
    match f with
    | chroma => Features MAJOR_PROFILE
    | amplitudeSpectrum => Features spectrum_high_peak
    end.

End Inputs.

(** ** The quantities the statements speak of *)

Section Specification.

Context {num : Type} {N : Number num}.
Variable Ctx : Type.
Variable Meyda_extract : option Ctx -> feature -> list num -> extracted num.

Local Open Scope num_scope.

(** The 24 candidates in the order the two scoring loops meet them, each
    with its correlation: the major keys from tonic 0 up, then the minor
    keys from tonic 0 up. *)
Definition scored_candidates (avgChroma : list num) : list (string * num) :=
  map (fun i => (key_name i "Major",
                 correlate avgChroma (rotate MAJOR_PROFILE (Z.of_nat i)))) (seq 0 12)
  ++
  map (fun i => (key_name i "Minor",
                 correlate avgChroma (rotate MINOR_PROFILE (Z.of_nat i)))) (seq 0 12).

(** The 24 key names. *)
Definition key_names : list string :=
  map (fun i => key_name i "Major") (seq 0 12) ++
  map (fun i => key_name i "Minor") (seq 0 12).

(** A candidate replaces the best so far when its score is strictly greater. *)
Definition pick (st : num * string) (c : string * num) : num * string :=
  if snd c >? fst st then (snd c, fst c) else st.

(** The normalised chroma vector [avgChroma] of a buffer. *)
Definition averageChroma (meyda : option Ctx) (buffer : AudioBuffer) : list num :=
  let (totalChroma, frames) := accumulateChroma Ctx Meyda_extract meyda buffer in
  map (fun val => val / of_Z (Z.of_nat frames)) totalChroma.

(** The number of frames the frame loop analysed. *)
Definition frameCount (meyda : option Ctx) (buffer : AudioBuffer) : nat :=
  snd (accumulateChroma Ctx Meyda_extract meyda buffer).

(** The start offsets of the chunks of the tuning estimator: 50 offsets,
    evenly spaced, those whose window of 4096 samples lies in the buffer. *)
Definition chunk_starts (len : Z) : list Z :=
  filter (fun start => (start + fftSize <=? len)%Z)
         (map (fun i => (Z.of_nat i * (len / Z.of_nat chunksToAnalyze))%Z)
              (seq 0 chunksToAnalyze)).

(** The same for the turns [a], [a + 1], ... ([n] of them) of a loop of
    step [step]. *)
Definition fitting_starts (len step : Z) (a n : nat) : list Z :=
  filter (fun start => (start + fftSize <=? len)%Z)
         (map (fun i => (Z.of_nat i * step)%Z) (seq a n)).

(** The chunk of a buffer that starts at offset [start]. *)
Definition chunk_at (data : list num) (start : Z) : list num :=
  firstn (Z.to_nat fftSize) (skipn (Z.to_nat start) data).

Section TuningSpecification.

Context {M : MathLib num}.

(** The deviation in cents of a frequency from the nearest A440 semitone, as
    the specification words it:
    [midi = 69 + 12 log2 (freq / 440)], [(midi - round midi) * 100]. *)
Definition spec_cents (freq : num) : num :=
  let midi := of_Z 69 + of_Z 12 * Math_log2 (freq / of_Z 440) in
  (midi - Math_round midi) * of_Z 100.

(** The deviation of a chunk, when the chunk is valid: Meyda returns a
    spectrum and the peak of the search is above the silence threshold. *)
Definition chunk_deviation (meyda : option Ctx) (binSize : num) (chunk : list num)
    : option num :=
  match Meyda_extract meyda amplitudeSpectrum chunk with
  | Features spectrum =>
      if fst (findPeak spectrum) >? of_Q 0.1
      then Some (spec_cents (of_Z (snd (findPeak spectrum)) * binSize))
      else None
  | Falsy => None
  | Threw => None
  end.

(** The deviations of the valid chunks, in the order of the chunks. *)
Definition valid_deviations (meyda : option Ctx) (buffer : AudioBuffer) : list num :=
  flat_map
    (fun start =>
       match chunk_deviation meyda (sampleRate buffer / of_Z fftSize)
               (chunk_at (channelData buffer) start) with
       | Some d => [d]
       | None => []
       end)
    (chunk_starts (buffer_length buffer)).

(** The estimate from the deviations of the valid chunks, as the
    specification words it: 440 when there is none, else
    [round (440 * 2 ^ (avgCents / 1200))] for their average. *)
Definition spec_reference (deviations : list num) : num :=
  match deviations with
  | [] => of_Z 440
  | _ :: _ =>
      let avgCents :=
        fold_left add deviations (of_Z 0) / of_Z (Z.of_nat (List.length deviations)) in
      Math_round (of_Z 440 * Math_pow (of_Z 2) (avgCents / of_Z 1200))
  end.

End TuningSpecification.

End Specification.

(** ** Laws of the order on numbers *)

(** What the statements on the choice of the best candidate use of [<] and
    [<=]; both implementations have them. *)
Class NumberOrder (num : Type) {N : Number num} : Prop := {
  lt_irrefl : forall x : num, lt x x = false;
  lt_trans : forall x y z : num, lt x y = true -> lt y z = true -> lt x z = true;
  lt_le_trans : forall x y z : num, lt x y = true -> le y z = true -> lt x z = true;
  lt_NaN_r : forall x : num, lt x NaN = false
}.

(** ** Concrete inputs in exact arithmetic *)

Module ExactInputs.

(** Three samples of silence at 44100 Hz. *)
Definition short_buffer : AudioBuffer (num := XR.xreal) :=
  {| channelData := repeat (of_Z 0) 3; sampleRate := of_Z 44100 |}.

(** A window of 4096 samples at 44100 Hz. *)
Definition tone_buffer : AudioBuffer (num := XR.xreal) :=
  {| channelData := repeat (of_Z 0) (Z.to_nat 4096); sampleRate := of_Z 44100 |}.

(** A spectrum of 2048 bins with one line, of magnitude 1, at bin 41
    (about 441 Hz at this rate and window size). *)
Definition tone_spectrum : list XR.xreal :=
  repeat (of_Z 0) 41 ++ of_Z 1 :: repeat (of_Z 0) (Z.to_nat 2006).

(** A Meyda that finds that spectrum in every chunk. *)
Definition extract_tone : option unit -> feature -> list XR.xreal -> extracted XR.xreal :=
  fun _ f _ =>
    match f with
    | amplitudeSpectrum => Features tone_spectrum
    | chroma => Falsy
    end.

(** A Meyda that returns nothing. *)
Definition extract_nothing : option unit -> feature -> list XR.xreal -> extracted XR.xreal :=
  fun _ _ _ => Falsy.

End ExactInputs.

(** A number of the exact implementation that is finite and within
    [bound] of zero. *)
Definition finite_within (bound : R) (x : XR.xreal) : Prop :=
  exists r, x = XR.Fin r /\ (- bound <= r <= bound)%R.

(** The three sums [(sumXx, sumYy, sumXy)] of [correlate] when its loop
    ends, and the denominator [Math.sqrt(sumXx * sumYy)] of its quotient. *)
Definition correlate_sums {num : Type} {N : Number num}
    (chroma : list num) (profile : list (option num)) : num * num * num :=
  let meanX := div (fold_left add chroma (of_Z 0)) (of_Z 12) in
  let meanY := div (fold_left (fun a b => add a (toNumber b)) profile (of_Z 0)) (of_Z 12) in
  fold_left (correlate_step chroma profile meanX meanY) (seq 0 12)
    (of_Z 0, of_Z 0, of_Z 0).

Definition correlate_denominator {num : Type} {N : Number num}
    (chroma : list num) (profile : list (option num)) : num :=
  let '(sumXx, sumYy, _) := correlate_sums chroma profile in
  Math_sqrt (mul sumXx sumYy).

(** A number of the exact implementation whose quotient by zero is [NaN]. *)
Definition zero_or_NaN (x : XR.xreal) : Prop := x = XR.Fin 0 \/ x = XR.XNaN.

(** [detectKey] says ["Unknown"] for the buffer of [n] samples, each 0.5,
    at [rate] Hz, with a Meyda that would return the major profile. *)
Definition unknown_key_at (rate : float) (n : nat) : bool :=
  String.eqb
    (fst (detectKey unit Inputs.extract_major
            {| channelData := repeat 0.5%float n; sampleRate := rate |}
            Inputs.world0))
    "Unknown".

(** * Properties *)

(** ** rotate *)

Lemma rotate_length {A : Type} (arr : list A) (n : Z) :
  List.length (rotate arr n) = List.length arr.
Proof.
  unfold rotate. now rewrite length_map, length_seq.
Qed.

(** Every index of the rotated array reads [arr[(i - n + len) % len]], with
    JavaScript's remainder, which has the sign of its dividend. *)
Lemma rotate_nth_error {A : Type} (arr : list A) (n : Z) (i : nat) :
  (i < List.length arr)%nat ->
  nth_error (rotate arr n) i =
  Some (lookup arr (Z.rem (Z.of_nat i - n + Z.of_nat (List.length arr))
                          (Z.of_nat (List.length arr)))).
Proof.
  intros Hi. unfold rotate.
  rewrite nth_error_map.
  rewrite (nth_error_nth' _ 0%nat) by now rewrite length_seq.
  rewrite seq_nth by assumption. reflexivity.
Qed.

Lemma lookup_in_range {A : Type} (a : list A) (j : Z) :
  0 <= j -> lookup a j = nth_error a (Z.to_nat j).
Proof.
  intros Hj. unfold lookup.
  destruct (Z.ltb_spec j 0); [lia | reflexivity].
Qed.

(** C8 (as amended): for a 12-element profile [p], [rotate p n] holds at every
    index [i] with [0 <= i - n + 12] (every index, when [n <= 12]) the element
    of [p] at index [(i - n + 12) mod 12]; rotating by 12 gives [p] back; and
    for [0 <= n < 12] the element at index [j] of [p] moves to index
    [(j + n) mod 12], so the weight of the tonic C lands on the pitch class
    [n] semitones above C. *)
Theorem rotate_places_source_element {A : Type} (p : list A)
    (Hp : List.length p = 12%nat) :
  (forall (n : Z) (i : nat), (i < 12)%nat -> 0 <= Z.of_nat i - n + 12 ->
     exists x, nth_error p (Z.to_nat ((Z.of_nat i - n + 12) mod 12)) = Some x /\
               nth_error (rotate p n) i = Some (Some x)) /\
  rotate p 12 = map Some p /\
  (forall (n : Z) (j : nat), 0 <= n < 12 -> (j < 12)%nat ->
     nth_error (rotate p n) (Z.to_nat ((Z.of_nat j + n) mod 12)) = Some (nth_error p j)).
Proof.
  assert (Hrem : forall a, 0 <= a -> Z.rem a 12 = a mod 12).
  { intros a Ha. apply Z.rem_mod_nonneg; lia. }
  split; [| split].
  - intros n i Hi Hpos.
    pose proof (Z.mod_pos_bound (Z.of_nat i - n + 12) 12 ltac:(lia)) as Hb.
    destruct (nth_error p (Z.to_nat ((Z.of_nat i - n + 12) mod 12))) as [x|] eqn:Hx.
    + exists x. split; [reflexivity|].
      rewrite rotate_nth_error by lia. rewrite Hp.
      change (Z.of_nat 12) with 12. rewrite Hrem by assumption.
      rewrite lookup_in_range by lia. now rewrite Hx.
    + apply nth_error_None in Hx. lia.
  - apply nth_error_ext. intros i.
    destruct (Nat.lt_ge_cases i 12) as [Hi|Hi].
    + rewrite rotate_nth_error by lia. rewrite Hp.
      change (Z.of_nat 12) with 12.
      replace (Z.of_nat i - 12 + 12) with (Z.of_nat i) by lia.
      rewrite Hrem by lia. rewrite Z.mod_small by lia.
      rewrite lookup_in_range by lia. rewrite Nat2Z.id.
      rewrite nth_error_map.
      destruct (nth_error p i) eqn:Hx; [reflexivity|].
      apply nth_error_None in Hx. lia.
    + rewrite (proj2 (nth_error_None _ _)) by (rewrite rotate_length; lia).
      symmetry. apply nth_error_None. rewrite length_map. lia.
  - intros n j Hn Hj.
    pose proof (Z.mod_pos_bound (Z.of_nat j + n) 12 ltac:(lia)) as Hb.
    rewrite rotate_nth_error by lia. rewrite Hp.
    change (Z.of_nat 12) with 12. rewrite Z2Nat.id by lia.
    assert (Hsrc : Z.rem ((Z.of_nat j + n) mod 12 - n + 12) 12 = Z.of_nat j).
    { rewrite Hrem by lia.
      destruct (Z.lt_ge_cases (Z.of_nat j + n) 12).
      - rewrite (Z.mod_small (Z.of_nat j + n)) by lia.
        replace (Z.of_nat j + n - n + 12) with (Z.of_nat j + 1 * 12) by lia.
        rewrite Z.mod_add by lia. apply Z.mod_small; lia.
      - replace ((Z.of_nat j + n) mod 12) with (Z.of_nat j + n - 12).
        + replace (Z.of_nat j + n - 12 - n + 12) with (Z.of_nat j) by lia.
          apply Z.mod_small; lia.
        + apply Z.mod_unique with 1; lia. }
    rewrite Hsrc. rewrite lookup_in_range by lia. now rewrite Nat2Z.id.
Qed.

Lemma rotate_places_source_element_witness :
  List.length KEYS = 12%nat /\ rotate KEYS 12 = map Some KEYS.
Proof.
  split; [reflexivity|].
  exact (proj1 (proj2 (rotate_places_source_element KEYS eq_refl))).
Defined.

(** C8, the claim as written fails for a rotation amount above 12: with
    [n = 13] the index 0 reads [arr[-1]], which is [undefined], while the
    element of the profile at index [(0 - 13 + 12) mod 12 = 11] is ["B"]. *)
Lemma rotate_by_13_reads_undefined :
  nth_error (rotate KEYS 13) 0 = Some None /\
  nth_error KEYS (Z.to_nat ((0 - 13 + 12) mod 12)) = Some "B"%string.
Proof.
  split; reflexivity.
Qed.

(** ** Determinism and the state of the service *)

Section Determinism.

Context {num : Type} {N : Number num} {M : MathLib num}.
Variable Ctx : Type.
Variable Meyda_extract : option Ctx -> feature -> list num -> extracted num.

Notation detectTuningReference := (detectTuningReference Ctx Meyda_extract).
Notation detectKey := (detectKey Ctx Meyda_extract).

Lemma detectTuningReference_run (buffer : AudioBuffer) (w : World Ctx) :
  detectTuningReference buffer w =
  (tuningReference Ctx Meyda_extract (Some (Tone_rawContext w)) buffer, after_call w).
Proof. reflexivity. Qed.

Lemma detectKey_run (buffer : AudioBuffer) (w : World Ctx) :
  detectKey buffer w =
  (keyOf Ctx Meyda_extract (Some (Tone_rawContext w)) buffer, after_call w).
Proof. reflexivity. Qed.


End Determinism.

(** ** The peak search *)

Section PeakSearch.

Context {num : Type} {N : Number num}.

(** [k < spectrum.length / 2], on integers. *)
Lemma peak_bins_spec (spectrum : list num) (k : nat) :
  In k (peak_bins spectrum) <-> (10 <= k /\ 2 * k < List.length spectrum)%nat.
Proof.
  unfold peak_bins. rewrite in_seq.
  pose proof (Nat.div2_odd (S (List.length spectrum))) as Hd.
  destruct (Nat.odd (S (List.length spectrum))); cbn [Nat.b2n] in Hd; lia.
Qed.

Lemma peak_fold_ext (s1 s2 : list num) (bins : list nat) (st : num * Z) :
  (forall k, In k bins -> nth k s1 NaN = nth k s2 NaN) ->
  fold_left (peak_step s1) bins st = fold_left (peak_step s2) bins st.
Proof.
  revert st. induction bins as [|k bins IH]; intros st Hk; [reflexivity|].
  cbn [fold_left]. unfold peak_step at 2 4.
  rewrite (Hk k) by now left.
  apply IH. intros k' Hk'. apply Hk. now right.
Qed.

(** The search never reads a bin of the upper half of the spectrum: two
    spectra of one length that agree below the middle have the same peak. *)
Lemma findPeak_ignores_upper_half (s1 s2 : list num) :
  List.length s1 = List.length s2 ->
  (forall k, (2 * k < List.length s1)%nat -> nth k s1 NaN = nth k s2 NaN) ->
  findPeak s1 = findPeak s2.
Proof.
  intros Hlen Hlow. unfold findPeak.
  replace (peak_bins s2) with (peak_bins s1) by (unfold peak_bins; now rewrite Hlen).
  apply peak_fold_ext. intros k Hk. apply Hlow.
  now apply peak_bins_spec in Hk.
Qed.

End PeakSearch.

(** ** Evaluation on binary64 *)

(** Conjunct by conjunct, by evaluation in the virtual machine. *)
Ltac evaluate :=
  intros; repeat match goal with |- _ /\ _ => split end; vm_compute; reflexivity.

(** C2, at a spectrum of 2048 bins whose maximum, 5, stands at bin 1500:
    the search visits the bins 10 to 1023 only, a quarter of the window
    and half of the spectrum, and reports bin 10 with magnitude 0.2. *)
Theorem peak_search_stops_at_half_spectrum :
  List.length Inputs.spectrum_high_peak = Z.to_nat 2048 /\
  nth (Z.to_nat 1500) Inputs.spectrum_high_peak NaN = 5%float /\
  forallb (fun v => PrimFloat.leb v 5) Inputs.spectrum_high_peak = true /\
  peak_bins Inputs.spectrum_high_peak = seq 10 (Z.to_nat 1014) /\
  findPeak Inputs.spectrum_high_peak = (0.2%float, 10).
Proof.
  evaluate.
Qed.

(** C5: with the chroma vector equal to the major profile, the scoring
    loops return ["C Major"] with correlation exactly 1; the first of the 24
    candidates, rotation 0 of the major profile, scores 1, every candidate
    scores at most 1 and every other one less than 1; the candidates are the
    12 major keys followed by the 12 minor keys. *)
Theorem major_profile_selects_C_major :
  selectKey (num := float) MAJOR_PROFILE = (1%float, "C Major"%string) /\
  nth_error (scored_candidates (num := float) MAJOR_PROFILE) 0
    = Some ("C Major"%string, 1%float) /\
  forallb (fun c => PrimFloat.leb (snd c) 1)
          (scored_candidates (num := float) MAJOR_PROFILE) = true /\
  forallb (fun c => PrimFloat.ltb (snd c) 1)
          (tl (scored_candidates (num := float) MAJOR_PROFILE)) = true /\
  map fst (scored_candidates (num := float) MAJOR_PROFILE) = key_names.
Proof.
  evaluate.
Qed.

(** C6, at a buffer of exactly 4096 samples (half a second at 8192 Hz): the
    window is [0, 4096), the frame that starts at 0 ends at its last sample,
    and the loop analyses no frame, so the key is ["Unknown"]; one sample
    more and the frame is analysed.  With 12288 samples the frame that
    starts at 8192 ends at the last sample, and one frame is analysed, not
    two. *)
Theorem frame_ending_at_window_end_is_skipped :
  let buffer := Inputs.constant_buffer 0.5 4096 8192 in
  buffer_length buffer = 4096 /\
  safeStart buffer = 0%float /\
  endSample buffer = 4096%float /\
  frameCount unit Inputs.extract_major None buffer = 0%nat /\
  fst (detectKey unit Inputs.extract_major buffer Inputs.world0) = "Unknown"%string /\
  fst (detectKey unit Inputs.extract_major
         (Inputs.constant_buffer 0.5 4097 8192) Inputs.world0) = "C Major"%string /\
  frameCount unit Inputs.extract_major None
    (Inputs.constant_buffer 0.5 12288 8192) = 1%nat /\
  frameCount unit Inputs.extract_major None
    (Inputs.constant_buffer 0.5 12289 8192) = 2%nat.
Proof.
  evaluate.
Qed.

(** C1, the claim as written fails on a silent buffer of 8192 samples: one
    frame is analysed, its chroma vector is constant, every correlation is
    [0 / 0], and the key returned is the empty string, which is neither
    ["Unknown"] nor one of the 24 key names. *)
Lemma silent_buffer_key_is_empty :
  frameCount unit Inputs.extract_silence None
    (Inputs.constant_buffer 0 8192 8192) = 1%nat /\
  forallb (fun c => is_nan (snd c))
    (scored_candidates
       (averageChroma unit Inputs.extract_silence None
          (Inputs.constant_buffer 0 8192 8192))) = true /\
  fst (detectKey unit Inputs.extract_silence
         (Inputs.constant_buffer 0 8192 8192) Inputs.world0) = EmptyString /\
  existsb (String.eqb EmptyString) ("Unknown"%string :: key_names) = false.
Proof.
  evaluate.
Qed.

(** ** The tuning estimator as an average over the valid chunks *)

Section TuningRefinement.

Context {num : Type} {N : Number num} {M : MathLib num}.
Variable Ctx : Type.
Variable Meyda_extract : option Ctx -> feature -> list num -> extracted num.

Local Open Scope num_scope.

(** A window that lies in the buffer is sliced whole. *)
Lemma slice_int_chunk (data : list num) (start : Z) :
  (0 <= start)%Z -> (start + fftSize <= Z.of_nat (List.length data))%Z ->
  slice_int data (Integer start) (Integer (start + fftSize)) = chunk_at data start.
Proof.
  unfold fftSize. intros H0 Hfit. unfold slice_int, chunk_at, relative_index, fftSize.
  destruct (Z.ltb_spec start 0); [lia|].
  destruct (Z.ltb_spec (start + 4096) 0); [lia|].
  rewrite !Z.min_l by lia.
  replace (start + 4096 - start)%Z with 4096%Z by lia. reflexivity.
Qed.

(** The body of the loop adds the deviation of a valid chunk and counts it,
    and leaves the sums alone otherwise. *)
Lemma analyzeChunk_deviation (meyda : option Ctx) (binSize : num) (chunk : list num)
    (st : num * nat) :
  analyzeChunk Ctx Meyda_extract meyda binSize chunk st =
  match chunk_deviation Ctx Meyda_extract meyda binSize chunk with
  | Some d => (fst st + d, S (snd st))
  | None => st
  end.
Proof.
  unfold analyzeChunk, chunk_deviation.
  destruct (Meyda_extract meyda amplitudeSpectrum chunk) as [| |spectrum];
    try reflexivity.
  destruct (findPeak spectrum) as [maxVal maxBin]. cbn [fst snd].
  destruct (lt (of_Q 0.1) maxVal); reflexivity.
Qed.

(** Offsets ascend: once a window passes the end of the buffer, so does
    every later one, and leaving the loop skips nothing that fits. *)
Lemma fitting_starts_after_break (len step : Z) (a n : nat) :
  (0 <= step)%Z -> (Z.of_nat a * step + fftSize > len)%Z ->
  fitting_starts len step a n = [].
Proof.
  intros Hstep. revert a. induction n as [|n IH]; intros a Ha; [reflexivity|].
  unfold fitting_starts in *. cbn [seq map filter].
  destruct (Z.leb_spec (Z.of_nat a * step + fftSize) len); [lia|].
  apply IH. nia.
Qed.

(** The loop with its [break] is a fold over the offsets that fit. *)
Lemma chunkLoop_fold (meyda : option Ctx) (data : list num) (binSize : num)
    (step : Z) (n a : nat) (st : num * nat) :
  (0 <= step)%Z ->
  chunkLoop Ctx Meyda_extract meyda data binSize step (seq a n) st =
  fold_left
    (fun st start =>
       analyzeChunk Ctx Meyda_extract meyda binSize (chunk_at data start) st)
    (fitting_starts (Z.of_nat (List.length data)) step a n) st.
Proof.
  intros Hstep. revert a st. induction n as [|n IH]; intros a st; [reflexivity|].
  cbn [seq chunkLoop].
  destruct (Z.gtb_spec (Z.of_nat a * step + fftSize) (Z.of_nat (List.length data)))
    as [Hgt|Hle].
  - rewrite fitting_starts_after_break by lia. reflexivity.
  - rewrite IH. unfold fitting_starts. cbn [seq map filter].
    destruct (Z.leb_spec (Z.of_nat a * step + fftSize) (Z.of_nat (List.length data)));
      [|lia].
    cbn [fold_left]. rewrite slice_int_chunk by nia. reflexivity.
Qed.

(** Folding the body over offsets sums the deviations of the valid chunks
    and counts them. *)
Lemma fold_analyzeChunk (meyda : option Ctx) (data : list num) (binSize : num)
    (starts : list Z) (st : num * nat) :
  let deviations :=
    flat_map (fun start =>
                match chunk_deviation Ctx Meyda_extract meyda binSize
                        (chunk_at data start) with
                | Some d => [d]
                | None => []
                end) starts in
  fold_left
    (fun st start =>
       analyzeChunk Ctx Meyda_extract meyda binSize (chunk_at data start) st)
    starts st
  = (fold_left add deviations (fst st), (snd st + List.length deviations)%nat).
Proof.
  revert st. induction starts as [|start starts IH]; intros st; cbn zeta.
  - cbn. rewrite Nat.add_0_r. now destruct st.
  - cbn [fold_left flat_map]. cbn zeta in IH. rewrite IH.
    rewrite analyzeChunk_deviation.
    destruct (chunk_deviation Ctx Meyda_extract meyda binSize (chunk_at data start))
      as [d|]; cbn [app fst snd fold_left List.length].
    + f_equal. lia.
    + reflexivity.
Qed.

(** The estimate from the deviations of the valid chunks. *)
Lemma tuningReference_spec_reference (meyda : option Ctx) (buffer : AudioBuffer) :
  tuningReference Ctx Meyda_extract meyda buffer =
  spec_reference (valid_deviations Ctx Meyda_extract meyda buffer).
Proof.
  unfold tuningReference, valid_deviations, chunk_starts, buffer_length.
  set (len := Z.of_nat (List.length (channelData buffer))).
  assert (Hstep : (0 <= len / Z.of_nat chunksToAnalyze)%Z).
  { apply Z.div_pos; unfold chunksToAnalyze, len; lia. }
  rewrite chunkLoop_fold by exact Hstep.
  unfold fitting_starts. fold len.
  rewrite fold_analyzeChunk. cbn zeta. cbn [fst snd].
  match goal with |- context [flat_map ?f ?l] => generalize (flat_map f l) end.
  intros [|d deviations]; reflexivity.
Qed.

(** C4: the estimate is [spec_reference] of the deviations of the valid
    chunks: each valid chunk contributes
    [(midi - round midi) * 100] with [midi = 69 + 12 log2 (peakFreq / 440)]
    and [peakFreq] the centre frequency of its peak bin; the deviations are
    summed in the order of the chunks and divided by the number of valid
    chunks; and the result is [round (440 * 2 ^ (avgCents / 1200))], or 440
    when no chunk is valid. *)
Theorem tuning_reference_is_average_of_valid_chunks
    (buffer : AudioBuffer) (w : World Ctx) :
  fst (detectTuningReference Ctx Meyda_extract buffer w) =
  spec_reference
    (valid_deviations Ctx Meyda_extract (Some (Tone_rawContext w)) buffer).
Proof.
  rewrite detectTuningReference_run. cbn [fst].
  apply tuningReference_spec_reference.
Qed.

End TuningRefinement.

(** ** The order laws of the two implementations *)

Module F64Order.

Ltac cmp_cases :=
  repeat match goal with
  | H : context [Z.compare ?a ?b] |- _ => destruct (Z.compare_spec a b)
  | |- context [Z.compare ?a ?b] => destruct (Z.compare_spec a b)
  | H : context [Pos.compare ?a ?b] |- _ => destruct (Pos.compare_spec a b)
  | |- context [Pos.compare ?a ?b] => destruct (Pos.compare_spec a b)
  end.

Ltac order_cases :=
  unfold SFltb, SFleb, SFcompare;
  repeat match goal with
  | x : spec_float |- _ => destruct x
  | s : bool |- _ => destruct s
  end;
  intros; try discriminate; try reflexivity;
  change (Pos.compare_cont Eq) with Pos.compare in *;
  cmp_cases; cbn in *; try discriminate; try reflexivity; try lia.

Lemma SFltb_irrefl (a : spec_float) : SFltb a a = false.
Proof. order_cases. Qed.

Lemma SFltb_trans (a b c : spec_float) :
  SFltb a b = true -> SFltb b c = true -> SFltb a c = true.
Proof. order_cases. Qed.

Lemma SFltb_leb_trans (a b c : spec_float) :
  SFltb a b = true -> SFleb b c = true -> SFltb a c = true.
Proof. order_cases. Qed.

#[global] Instance order : NumberOrder float.
Proof.
  constructor; cbn [lt le NaN F64.number].
  - intros x. rewrite ltb_spec. apply SFltb_irrefl.
  - intros x y z. rewrite !ltb_spec. apply SFltb_trans.
  - intros x y z. rewrite !ltb_spec, leb_spec. apply SFltb_leb_trans.
  - intros x. rewrite ltb_spec. unfold SFltb, SFcompare.
    change (Prim2SF nan) with S754_nan. now destruct (Prim2SF x).
Qed.

End F64Order.

Module XROrder.

Import XR.

Ltac dec_cases :=
  unfold Rltb, Rleb, Reqb in *;
  repeat match goal with
  | |- context [Rlt_dec ?a ?b] => destruct (Rlt_dec a b)
  | H : context [Rlt_dec ?a ?b] |- _ => destruct (Rlt_dec a b)
  | |- context [Rle_dec ?a ?b] => destruct (Rle_dec a b)
  | H : context [Rle_dec ?a ?b] |- _ => destruct (Rle_dec a b)
  | |- context [Req_dec_T ?a ?b] => destruct (Req_dec_T a b)
  | H : context [Req_dec_T ?a ?b] |- _ => destruct (Req_dec_T a b)
  end.

#[global] Instance order : NumberOrder xreal.
Proof.
  constructor; cbn [lt le NaN XR.number].
  - intros [r| | |]; cbn; try reflexivity. dec_cases; [lra|reflexivity].
  - intros [x| | |] [y| | |] [z| | |]; cbn; intros; try discriminate; try reflexivity.
    dec_cases; try discriminate; try reflexivity; lra.
  - intros [x| | |] [y| | |] [z| | |]; cbn; intros; try discriminate; try reflexivity.
    dec_cases; try discriminate; try reflexivity; lra.
  - intros [x| | |]; reflexivity.
Qed.

End XROrder.

(** ** The choice of the best candidate *)

Section Selection.

Context {num : Type} {N : Number num}.

Local Open Scope num_scope.

Lemma fold_left_map_pick {A : Type} (f : A -> string * num) (l : list A)
    (step : num * string -> A -> num * string) (st : num * string) :
  (forall st a, step st a = pick st (f a)) ->
  fold_left step l st = fold_left pick (map f l) st.
Proof.
  intros Hstep. revert st. induction l as [|a l IH]; intros st; [reflexivity|].
  cbn [map fold_left]. rewrite Hstep. apply IH.
Qed.

(** The two scoring loops are one pass of [pick] over the 24 candidates,
    from [(-Infinity, "")]. *)
Lemma selectKey_fold_pick (avgChroma : list num) :
  selectKey avgChroma =
  fold_left pick (scored_candidates avgChroma) (neg Infinity, EmptyString).
Proof.
  unfold selectKey, scored_candidates. rewrite fold_left_app.
  rewrite (fold_left_map_pick
             (fun i => (key_name i "Major",
                        correlate avgChroma (rotate MAJOR_PROFILE (Z.of_nat i))))
             _ (consider avgChroma MAJOR_PROFILE "Major")) by reflexivity.
  rewrite (fold_left_map_pick
             (fun i => (key_name i "Minor",
                        correlate avgChroma (rotate MINOR_PROFILE (Z.of_nat i))))
             _ (consider avgChroma MINOR_PROFILE "Minor")) by reflexivity.
  reflexivity.
Qed.

Context {O : NumberOrder num}.

(** One pass of [pick] either keeps its initial state, and then no
    candidate scores above the initial score, or ends on a candidate [j]
    that no candidate outscores and that no earlier candidate equals or
    outscores. *)
Lemma fold_pick_first_maximum (cs : list (string * num)) (b0 : num) (k0 : string) :
  let st := fold_left pick cs (b0, k0) in
  (st = (b0, k0) /\ forall c, In c cs -> lt b0 (snd c) = false)
  \/
  (exists j, nth_error cs j = Some (snd st, fst st) /\
             lt b0 (fst st) = true /\
             (forall c, In c cs -> lt (fst st) (snd c) = false) /\
             (forall j' c, (j' < j)%nat -> nth_error cs j' = Some c ->
                           le (fst st) (snd c) = false)).
Proof.
  induction cs as [|[k s] cs IH] using rev_ind; cbn zeta.
  - left. split; [reflexivity|]. intros c [].
  - rewrite fold_left_app. cbn [fold_left]. cbn zeta in IH.
    set (st := fold_left pick cs (b0, k0)) in *.
    assert (Hlast : nth_error (cs ++ [(k, s)]) (List.length cs) = Some (k, s)).
    { now rewrite nth_error_app2, Nat.sub_diag by lia. }
    assert (Hearlier : forall j' c, (j' < List.length cs)%nat ->
              nth_error (cs ++ [(k, s)]) j' = Some c -> In c cs).
    { intros j' c Hj' Hc. rewrite nth_error_app1 in Hc by assumption.
      eapply nth_error_In; eassumption. }
    unfold pick.
    destruct IH as [[Hst Hnone]|(j & Hj & Hb0 & Hmax & Hfirst)].
    + rewrite Hst. cbn [fst snd]. destruct (lt b0 s) eqn:Hs; cbn [fst snd].
      * right. exists (List.length cs). repeat split; try assumption.
        -- intros c [Hc|[Hc|[]]]%in_app_or.
           ++ destruct (lt s (snd c)) eqn:Hsc; [|reflexivity].
              rewrite <- (Hnone c Hc). symmetry. eapply lt_trans; eassumption.
           ++ subst c. apply lt_irrefl.
        -- intros j' c Hj' Hc. apply Hearlier in Hc; [|assumption].
           destruct (le s (snd c)) eqn:Hsc; [|reflexivity].
           rewrite <- (Hnone c Hc). symmetry. eapply lt_le_trans; eassumption.
      * left. split; [reflexivity|].
        intros c [Hc|[Hc|[]]]%in_app_or; [now apply Hnone|now subst c].
    + cbn [fst snd]. destruct (lt (fst st) s) eqn:Hs; cbn [fst snd].
      * right. exists (List.length cs). repeat split; try assumption.
        -- eapply lt_trans; eassumption.
        -- intros c [Hc|[Hc|[]]]%in_app_or.
           ++ destruct (lt s (snd c)) eqn:Hsc; [|reflexivity].
              rewrite <- (Hmax c Hc). symmetry. eapply lt_trans; eassumption.
           ++ subst c. apply lt_irrefl.
        -- intros j' c Hj' Hc. apply Hearlier in Hc; [|assumption].
           destruct (le s (snd c)) eqn:Hsc; [|reflexivity].
           rewrite <- (Hmax c Hc). symmetry. eapply lt_le_trans; eassumption.
      * right. exists j.
        assert (Hjlt : (j < List.length cs)%nat).
        { apply nth_error_Some. now rewrite Hj. }
        repeat split; try assumption.
        -- now rewrite nth_error_app1 by assumption.
        -- intros c [Hc|[Hc|[]]]%in_app_or; [now apply Hmax|now subst c].
        -- intros j' c Hj' Hc. apply (Hfirst j' c Hj').
           rewrite nth_error_app1 in Hc by lia. exact Hc.
Qed.

End Selection.

(** ** The key returned by detectKey *)

Section KeySelection.

Context {num : Type} {N : Number num} {O : NumberOrder num}.
Variable Ctx : Type.
Variable Meyda_extract : option Ctx -> feature -> list num -> extracted num.

Local Open Scope num_scope.

Lemma scored_candidates_names (avgChroma : list num) :
  map fst (scored_candidates avgChroma) = key_names.
Proof.
  unfold scored_candidates, key_names. rewrite map_app, !map_map. reflexivity.
Qed.

(** With no frame the key is ["Unknown"]; otherwise it is the key the
    scoring loops select for the normalised chroma vector. *)
Lemma keyOf_cases (meyda : option Ctx) (buffer : AudioBuffer) :
  keyOf Ctx Meyda_extract meyda buffer =
  if (frameCount Ctx Meyda_extract meyda buffer =? 0)%nat then "Unknown"%string
  else snd (selectKey (averageChroma Ctx Meyda_extract meyda buffer)).
Proof.
  unfold keyOf, frameCount, averageChroma.
  now destruct (accumulateChroma Ctx Meyda_extract meyda buffer).
Qed.


(** C1 (as amended): the key [detectKey] returns is ["Unknown"], when no
    frame was analysed; or the empty string, when frames were analysed and
    no candidate scores above [-Infinity]; or the name of one of the 24
    candidates, whose correlation is then above [-Infinity] and is not
    [NaN].  A correlation that evaluates to [NaN], as [0 / 0] does, is never
    the one selected. *)
Theorem detectKey_result_form (buffer : AudioBuffer) (w : World Ctx) :
  let meyda := Some (Tone_rawContext w) in
  let frames := frameCount Ctx Meyda_extract meyda buffer in
  let cs := scored_candidates (averageChroma Ctx Meyda_extract meyda buffer) in
  let key := fst (detectKey Ctx Meyda_extract buffer w) in
  (frames = 0%nat /\ key = "Unknown"%string)
  \/
  (frames <> 0%nat /\ key = EmptyString /\
   forall c, In c cs -> lt (neg Infinity) (snd c) = false)
  \/
  (frames <> 0%nat /\ In key key_names /\
   exists j s, nth_error cs j = Some (key, s) /\
               lt (neg Infinity) s = true /\ s <> NaN).
Proof.
  cbn zeta. rewrite detectKey_run. cbn [fst]. rewrite keyOf_cases.
  destruct (Nat.eqb_spec
              (frameCount Ctx Meyda_extract (Some (Tone_rawContext w)) buffer) 0)
    as [H0|Hpos]; [now left|right].
  rewrite selectKey_fold_pick.
  set (cs := scored_candidates _).
  destruct (fold_pick_first_maximum cs (neg Infinity) EmptyString)
    as [[Hst Hnone]|(j & Hj & Hb0 & _)].
  - left. rewrite Hst. auto.
  - right. split; [assumption|]. split.
    + rewrite <- (scored_candidates_names
                    (averageChroma Ctx Meyda_extract (Some (Tone_rawContext w)) buffer)).
      fold cs. apply in_map_iff. eexists. split; [|eapply nth_error_In; exact Hj].
      reflexivity.
    + exists j, (fst (fold_left pick cs (neg Infinity, EmptyString))).
      split; [assumption|]. split; [assumption|].
      intros Hnan. rewrite Hnan in Hb0. rewrite lt_NaN_r in Hb0. discriminate.
Qed.

End KeySelection.


Lemma detectKey_result_form_witness :
  let buffer := Inputs.constant_buffer 0 8192 8192 in
  let frames := frameCount unit Inputs.extract_silence (Some tt) buffer in
  let cs := scored_candidates (averageChroma unit Inputs.extract_silence (Some tt) buffer) in
  let key := fst (detectKey unit Inputs.extract_silence buffer Inputs.world0) in
  (frames = 0%nat /\ key = "Unknown"%string)
  \/
  (frames <> 0%nat /\ key = EmptyString /\
   forall c, In c cs -> lt (neg Infinity) (snd c) = false)
  \/
  (frames <> 0%nat /\ In key key_names /\
   exists j s, nth_error cs j = Some (key, s) /\
               lt (neg Infinity) s = true /\ s <> NaN).
Proof.
  exact (detectKey_result_form (O := F64Order.order) unit Inputs.extract_silence
           (Inputs.constant_buffer 0 8192 8192) Inputs.world0).
Defined.

(** ** Buffers with nothing to analyse *)

Section NoValidChunk.

Context {num : Type} {N : Number num} {M : MathLib num}.
Variable Ctx : Type.
Variable Meyda_extract : option Ctx -> feature -> list num -> extracted num.

Local Open Scope num_scope.

Lemma peak_fold_value (spectrum : list num) (bins : list nat) (v0 : num) (bin0 : Z) :
  (forall k, In k bins -> (k < List.length spectrum)%nat) ->
  fst (fold_left (peak_step spectrum) bins (v0, bin0)) = v0 \/
  In (fst (fold_left (peak_step spectrum) bins (v0, bin0))) spectrum.
Proof.
  revert v0 bin0. induction bins as [|k bins IH]; intros v0 bin0 Hbins; [now left|].
  cbn [fold_left]. unfold peak_step at 2 4. cbn [fst].
  assert (Hk : In (nth k spectrum NaN) spectrum).
  { apply nth_In. apply Hbins. now left. }
  assert (Hrest : forall k', In k' bins -> (k' < List.length spectrum)%nat).
  { intros k' Hk'. apply Hbins. now right. }
  destruct (lt v0 (nth k spectrum NaN)).
  - destruct (IH (nth k spectrum NaN) (Z.of_nat k) Hrest) as [H|H].
    + right. now rewrite H.
    + now right.
  - now apply IH.
Qed.

(** The magnitude the search reports is the initial [-1] or a bin of the
    spectrum. *)
Lemma findPeak_value (spectrum : list num) :
  fst (findPeak spectrum) = of_Z (-1) \/ In (fst (findPeak spectrum)) spectrum.
Proof.
  unfold findPeak. apply peak_fold_value.
  intros k Hk. apply peak_bins_spec in Hk. lia.
Qed.

(** A buffer shorter than one window: the first turn leaves the loop. *)
Lemma tuningReference_short (meyda : option Ctx) (buffer : AudioBuffer) :
  (buffer_length buffer < fftSize)%Z ->
  tuningReference Ctx Meyda_extract meyda buffer = of_Z 440.
Proof.
  unfold buffer_length, fftSize. intros Hshort.
  unfold tuningReference, chunksToAnalyze. cbn [seq chunkLoop].
  unfold fftSize. rewrite Z.mul_0_l.
  destruct (Z.gtb_spec (0 + 4096) (Z.of_nat (List.length (channelData buffer))));
    [reflexivity|lia].
Qed.

(** When the body changes nothing, neither does the loop. *)
Lemma chunkLoop_unchanged (meyda : option Ctx) (data : list num) (binSize : num)
    (step : Z) (turns : list nat) (st : num * nat) :
  (forall start,
     analyzeChunk Ctx Meyda_extract meyda binSize
       (slice_int data (Integer start) (Integer (start + fftSize))) st = st) ->
  chunkLoop Ctx Meyda_extract meyda data binSize step turns st = st.
Proof.
  intros Hbody. induction turns as [|i turns IH]; [reflexivity|].
  cbn [chunkLoop].
  destruct (Z.of_nat i * step + fftSize >? Z.of_nat (List.length data))%Z;
    [reflexivity|].
  now rewrite Hbody.
Qed.

Lemma Forall_slice_int {A : Type} (P : A -> Prop) (a : list A)
    (start final : integer_or_infinity) :
  Forall P a -> Forall P (slice_int a start final).
Proof.
  intros Ha. unfold slice_int.
  set (k := Z.to_nat _). set (n := Z.to_nat _).
  rewrite <- (firstn_skipn n a) in Ha. apply Forall_app in Ha as [_ Ha].
  rewrite <- (firstn_skipn k (skipn n a)) in Ha. now apply Forall_app in Ha as [Ha _].
Qed.

End NoValidChunk.

(** ** Exact arithmetic: buffers that yield the defaults *)

Section Defaults.

Variable Ctx : Type.
Variable Meyda_extract : option Ctx -> feature -> list XR.xreal -> extracted XR.xreal.

(** The start of the window is a finite number that is not negative, or
    [+Infinity], or [NaN]; the end of the window is at most the length of
    the buffer, or [NaN]. So in a buffer shorter than one frame the loop
    condition [i < endSample - bufferSize] fails at once. *)
Lemma no_frame_in_short_window (startSample x : XR.xreal) (len : Z) :
  len < bufferSize ->
  lt (Math_max (of_Z 0) startSample)
     (sub (Math_min x (of_Z len)) (of_Z bufferSize)) = false.
Proof.
  unfold bufferSize. intros Hlen. apply IZR_lt in Hlen.
  destruct startSample as [s| | |], x as [r| | |]; cbn;
    unfold XR.lt; XROrder.dec_cases; cbn; XROrder.dec_cases; try reflexivity; lra.
Qed.

Lemma accumulateChroma_short (meyda : option Ctx) (buffer : AudioBuffer (num := XR.xreal)) :
  buffer_length buffer < bufferSize ->
  accumulateChroma Ctx Meyda_extract meyda buffer = (repeat (of_Z 0) 12, 0%nat).
Proof.
  intros Hshort. unfold accumulateChroma. cbn [frameLoop].
  unfold safeStart at 1, endSample.
  rewrite no_frame_in_short_window by assumption. reflexivity.
Qed.

Lemma keyOf_short (meyda : option Ctx) (buffer : AudioBuffer (num := XR.xreal)) :
  buffer_length buffer < bufferSize ->
  keyOf Ctx Meyda_extract meyda buffer = "Unknown"%string.
Proof.
  intros Hshort. unfold keyOf. now rewrite accumulateChroma_short.
Qed.

(** A chunk whose spectrum has no bin above the threshold is not valid. *)
Lemma analyzeChunk_quiet (meyda : option Ctx) (binSize : XR.xreal) (chunk : list XR.xreal)
    (st : XR.xreal * nat) :
  (forall spectrum,
     Meyda_extract meyda amplitudeSpectrum chunk = Features spectrum ->
     Forall (fun v => lt (of_Q 0.1) v = false) spectrum) ->
  analyzeChunk Ctx Meyda_extract meyda binSize chunk st = st.
Proof.
  intros Hquiet. unfold analyzeChunk.
  destruct (Meyda_extract meyda amplitudeSpectrum chunk) as [| |spectrum];
    try reflexivity.
  specialize (Hquiet spectrum eq_refl).
  pose proof (findPeak_value spectrum) as Hpeak.
  destruct (findPeak spectrum) as [maxVal maxBin]. cbn [fst] in Hpeak.
  assert (Hlow : lt (of_Q 0.1) maxVal = false).
  { destruct Hpeak as [->|Hin].
    - cbn. unfold Q2R. cbn. XROrder.dec_cases; [lra|reflexivity].
    - rewrite Forall_forall in Hquiet. now apply Hquiet. }
  now rewrite Hlow.
Qed.

(** C3: a buffer whose channel 0 has fewer samples than one analysis window
    (4096) makes [detectTuningReference] return 440 and [detectKey] return
    ["Unknown"]; both are total functions, so neither throws.  And on a
    silent buffer, all of whose samples are zero, for which Meyda returns
    spectra with no bin above the threshold 0.1 (or returns none),
    [detectTuningReference] returns 440. *)
Theorem defaults_without_signal (buffer : AudioBuffer (num := XR.xreal)) (w : World Ctx) :
  (buffer_length buffer < fftSize ->
   fst (detectTuningReference Ctx Meyda_extract buffer w) = of_Z 440 /\
   fst (detectKey Ctx Meyda_extract buffer w) = "Unknown"%string)
  /\
  (Forall (fun x => x = of_Z 0) (channelData buffer) ->
   (forall meyda chunk spectrum,
      Forall (fun x => x = of_Z 0) chunk ->
      Meyda_extract meyda amplitudeSpectrum chunk = Features spectrum ->
      Forall (fun v => lt (of_Q 0.1) v = false) spectrum) ->
   fst (detectTuningReference Ctx Meyda_extract buffer w) = of_Z 440).
Proof.
  rewrite detectTuningReference_run, detectKey_run. cbn [fst]. split.
  - intros Hshort. split.
    + now apply tuningReference_short.
    + now apply keyOf_short.
  - intros Hsilent Hquiet. unfold tuningReference.
    rewrite chunkLoop_unchanged; [reflexivity|].
    intros start. apply analyzeChunk_quiet. intros spectrum Hspectrum.
    eapply Hquiet; [|exact Hspectrum].
    now apply Forall_slice_int.
Qed.

End Defaults.

Lemma defaults_without_signal_witness :
  buffer_length ExactInputs.short_buffer < fftSize /\
  fst (detectTuningReference unit ExactInputs.extract_nothing
         ExactInputs.short_buffer Inputs.world0) = of_Z 440 /\
  fst (detectKey unit ExactInputs.extract_nothing
         ExactInputs.short_buffer Inputs.world0) = "Unknown"%string.
Proof.
  split; [reflexivity|].
  apply (proj1 (defaults_without_signal unit ExactInputs.extract_nothing
                  ExactInputs.short_buffer Inputs.world0)).
  reflexivity.
Defined.


(** ** Exact arithmetic: the range of the tuning estimate *)

Section TuningRange.

Local Open Scope R_scope.

(** The integer part of [r + 1/2] is within a half of [r]. *)
Lemma round_within_half (r : R) :
  - / 2 <= r - IZR (Int_part (r + / 2)) < / 2.
Proof.
  destruct (base_Int_part (r + / 2)) as [Hle Hgt]. lra.
Qed.

Lemma Int_part_bounds (r : R) (lo hi : Z) :
  IZR lo <= r -> r < IZR hi + 1 -> (lo <= Int_part r <= hi)%Z.
Proof.
  intros Hlo Hhi. destruct (base_Int_part r) as [Hle Hgt]. split.
  - apply Z.lt_succ_r. apply lt_IZR. rewrite succ_IZR. lra.
  - apply Z.lt_succ_r. apply lt_IZR. rewrite succ_IZR. lra.
Qed.

(** [2 ^ (1/24) <= 1.03], since [1.03 ^ 24 > 2]. *)
Lemma Rpower_2_24th : Rpower 2 (/ 24) <= 103 / 100.
Proof.
  destruct (Rle_lt_dec (Rpower 2 (/ 24)) (103 / 100)) as [H|H]; [exact H|].
  exfalso.
  assert (Hpow : Rpower 2 (/ 24) ^ 24 = 2).
  { rewrite <- Rpower_pow by apply exp_pos.
    rewrite Rpower_mult.
    replace (/ 24 * INR 24) with 1 by (cbn; field).
    apply Rpower_1. lra. }
  assert (Hincr : (103 / 100) ^ 24 <= Rpower 2 (/ 24) ^ 24).
  { apply pow_incr. lra. }
  assert (Hbig : 2 < (103 / 100) ^ 24) by (cbn [pow]; lra).
  lra.
Qed.

(** For an exponent within [1/24] of zero, [440 * 2 ^ e] rounds into
    [427 .. 453]. *)
Lemma reference_bounds (e : R) :
  - / 24 <= e <= / 24 ->
  4265 / 10 <= 440 * Rpower 2 e /\ 440 * Rpower 2 e < 4535 / 10.
Proof.
  intros [Hlo Hhi].
  pose proof Rpower_2_24th as Hup.
  assert (Hpos : 0 < Rpower 2 (/ 24)) by apply exp_pos.
  assert (H1 : Rpower 2 e <= Rpower 2 (/ 24)) by (apply Rle_Rpower; lra).
  assert (H2 : Rpower 2 (- / 24) <= Rpower 2 e) by (apply Rle_Rpower; lra).
  rewrite Rpower_Ropp in H2.
  assert (H3 : 100 / 103 <= / Rpower 2 (/ 24)).
  { replace (100 / 103) with (/ (103 / 100)) by field.
    apply Rinv_le_contravar; assumption. }
  lra.
Qed.

Variable Ctx : Type.
Variable Meyda_extract : option Ctx -> feature -> list XR.xreal -> extracted XR.xreal.

(** The deviation of a positive frequency is finite, within 50 cents. *)
Lemma spec_cents_bounds (f : R) :
  0 < f -> finite_within 50 (spec_cents (XR.Fin f)).
Proof.
  intros Hf. unfold spec_cents, finite_within.
  assert (Hq : 0 < f / 440) by (apply Rdiv_lt_0_compat; lra).
  cbn. XROrder.dec_cases; try lra. cbn. XROrder.dec_cases; try lra.
  eexists. split; [reflexivity|].
  match goal with |- context [Int_part (?m + / 2)] =>
    pose proof (round_within_half m) end.
  lra.
Qed.

(** The bin the search reports is the initial [-1], with the initial
    magnitude, or one of the bins visited. *)
Lemma peak_fold_bin (spectrum : list XR.xreal) (bins : list nat)
    (v0 : XR.xreal) (bin0 : Z) :
  fold_left (peak_step spectrum) bins (v0, bin0) = (v0, bin0) \/
  exists k, In k bins /\
            snd (fold_left (peak_step spectrum) bins (v0, bin0)) = Z.of_nat k.
Proof.
  revert v0 bin0. induction bins as [|k bins IH]; intros v0 bin0; [now left|].
  cbn [fold_left]. unfold peak_step at 2 4. cbn [fst].
  destruct (lt v0 (nth k spectrum NaN)).
  - right. destruct (IH (nth k spectrum NaN) (Z.of_nat k)) as [H|(k' & Hk' & H)].
    + exists k. rewrite H. split; [now left|reflexivity].
    + exists k'. split; [now right|exact H].
  - destruct (IH v0 bin0) as [H|(k' & Hk' & H)]; [now left|].
    right. exists k'. split; [now right|exact H].
Qed.

(** A peak above the threshold stands at bin 10 or higher. *)
Lemma valid_peak_bin (spectrum : list XR.xreal) :
  lt (of_Q 0.1) (fst (findPeak spectrum)) = true ->
  (10 <= snd (findPeak spectrum))%Z.
Proof.
  unfold findPeak. intros Hvalid.
  destruct (peak_fold_bin spectrum (peak_bins spectrum) (of_Z (-1)) (-1))
    as [H|(k & Hk & H)].
  - rewrite H in Hvalid. cbn in Hvalid. unfold Q2R in Hvalid. cbn in Hvalid.
    XROrder.dec_cases; [lra|discriminate].
  - rewrite H. apply peak_bins_spec in Hk. lia.
Qed.

(** With a positive bin size, the deviation of a valid chunk is finite,
    within 50 cents. *)
Lemma chunk_deviation_bounds (meyda : option Ctx) (binSize : R)
    (chunk : list XR.xreal) (d : XR.xreal) :
  0 < binSize ->
  chunk_deviation Ctx Meyda_extract meyda (XR.Fin binSize) chunk = Some d ->
  finite_within 50 d.
Proof.
  intros Hbin. unfold chunk_deviation.
  destruct (Meyda_extract meyda amplitudeSpectrum chunk) as [| |spectrum];
    try discriminate.
  destruct (lt (of_Q 0.1) (fst (findPeak spectrum))) eqn:Hvalid; [|discriminate].
  intros [= <-]. apply valid_peak_bin in Hvalid.
  apply spec_cents_bounds.
  apply Rmult_lt_0_compat; [|exact Hbin].
  apply IZR_lt. lia.
Qed.

(** The sum of [n] numbers within 50 of zero is within [50 n] of where it
    starts. *)
Lemma sum_bounds (deviations : list XR.xreal) (acc : R) :
  Forall (finite_within 50) deviations ->
  exists t, fold_left add deviations (XR.Fin acc) = XR.Fin t /\
            acc - 50 * INR (List.length deviations) <= t
              <= acc + 50 * INR (List.length deviations).
Proof.
  intros Hall. revert acc.
  induction Hall as [|d deviations (r & -> & Hr) _ IH]; intros acc.
  - exists acc. cbn. split; [reflexivity|lra].
  - cbn [fold_left]. destruct (IH (acc + r)) as (t & Ht & Hbound).
    exists t. split; [exact Ht|].
    rewrite length_cons, S_INR. lra.
Qed.

Lemma div_finite (a b : R) :
  b <> 0 -> div (XR.Fin a) (XR.Fin b) = XR.Fin (a / b).
Proof.
  intros Hb. cbn. XROrder.dec_cases; try contradiction; reflexivity.
Qed.

Lemma valid_deviations_bounds (meyda : option Ctx)
    (buffer : AudioBuffer (num := XR.xreal)) (rate : R) :
  sampleRate buffer = XR.Fin rate -> 0 < rate ->
  Forall (finite_within 50) (valid_deviations Ctx Meyda_extract meyda buffer).
Proof.
  intros Hrate Hpos. unfold valid_deviations. rewrite Hrate.
  assert (Hbin : div (XR.Fin rate) (of_Z fftSize) = XR.Fin (rate / 4096)).
  { apply div_finite. lra. }
  rewrite Hbin. apply Forall_forall. intros d Hd.
  apply in_flat_map in Hd as (start & _ & Hd).
  destruct (chunk_deviation Ctx Meyda_extract meyda (XR.Fin (rate / 4096))
              (chunk_at (channelData buffer) start)) as [d'|] eqn:Hdev;
    [|contradiction].
  destruct Hd as [<-|[]].
  eapply chunk_deviation_bounds; [|exact Hdev]. lra.
Qed.

(** The estimate from deviations within 50 cents is an integer from 427
    to 453. *)
Lemma spec_reference_bounds (deviations : list XR.xreal) :
  Forall (finite_within 50) deviations ->
  exists z : Z, spec_reference deviations = of_Z z /\ (427 <= z <= 453)%Z.
Proof.
  intros Hall. destruct deviations as [|d deviations].
  - exists 440%Z. split; [reflexivity|lia].
  - unfold spec_reference.
    destruct (sum_bounds (d :: deviations) 0 Hall) as (t & Ht & Hbound).
    set (n := List.length (d :: deviations)) in *.
    assert (Hn : 1 <= INR n).
    { unfold n. rewrite length_cons, S_INR. pose proof (pos_INR (List.length deviations)). lra. }
    change (of_Z 0) with (XR.Fin 0). rewrite Ht.
    assert (Havg : div (XR.Fin t) (of_Z (Z.of_nat n)) = XR.Fin (t / INR n)).
    { rewrite INR_IZR_INZ. apply div_finite. rewrite <- INR_IZR_INZ. lra. }
    rewrite Havg.
    assert (Hrange : -50 <= t / INR n <= 50).
    { split.
      - apply Rmult_le_reg_r with (INR n); [lra|].
        unfold Rdiv. rewrite Rmult_assoc, Rinv_l by lra. lra.
      - apply Rmult_le_reg_r with (INR n); [lra|].
        unfold Rdiv. rewrite Rmult_assoc, Rinv_l by lra. lra. }
    assert (Hexp : div (XR.Fin (t / INR n)) (of_Z 1200)
                   = XR.Fin (t / INR n / 1200)).
    { apply div_finite. lra. }
    rewrite Hexp.
    assert (Hpow : Math_pow (of_Z 2) (XR.Fin (t / INR n / 1200))
                   = XR.Fin (Rpower 2 (t / INR n / 1200))).
    { cbn. XROrder.dec_cases; try lra; try reflexivity.
      f_equal. match goal with H : _ = 0 |- _ => rewrite H end.
      symmetry. apply Rpower_O. lra. }
    rewrite Hpow.
    destruct (reference_bounds (t / INR n / 1200)) as [Hlo Hhi]; [lra|].
    exists (Int_part (440 * Rpower 2 (t / INR n / 1200) + / 2)).
    split; [reflexivity|].
    apply Int_part_bounds; lra.
Qed.


End TuningRange.


(** ** Exact arithmetic: the frame loop ends by itself *)

Section FrameLoopFuel.

Variable Ctx : Type.
Variable Meyda_extract : option Ctx -> feature -> list XR.xreal -> extracted XR.xreal.

Local Open Scope Z_scope.

Lemma truncate_nonneg (r : R) : (0 <= r)%R -> XR.truncate r = Int_part r /\ 0 <= Int_part r.
Proof.
  intros Hr. unfold XR.truncate. XROrder.dec_cases; [lra|].
  split; [reflexivity|]. apply (Int_part_bounds r 0 (Int_part r)); [cbn; lra|].
  destruct (base_Int_part r). lra.
Qed.

Lemma Int_part_plus_IZR (r : R) (z : Z) : Int_part (r + IZR z) = Int_part r + z.
Proof.
  symmetry. apply Int_part_spec. rewrite plus_IZR.
  destruct (base_Int_part r). lra.
Qed.

(** A chunk cut at a finite offset [r >= 0] is full only when the window
    lies in the buffer. *)
Lemma full_chunk_fits (data : list XR.xreal) (r : R) :
  (0 <= r)%R ->
  (Z.of_nat (List.length (slice data (XR.Fin r) (add (XR.Fin r) (of_Z bufferSize))))
     <? bufferSize) = false ->
  XR.truncate r + bufferSize <= Z.of_nat (List.length data).
Proof.
  intros Hr. destruct (truncate_nonneg r Hr) as [Htr Hpos].
  unfold slice. cbn [ToIntegerOrInfinity XR.number add of_Z XR.add XR.of_Z
                     XR.ToIntegerOrInfinity].
  assert (Hr' : (0 <= r + IZR bufferSize)%R) by (unfold bufferSize; lra).
  destruct (truncate_nonneg _ Hr') as [Htr' _].
  rewrite Htr', Int_part_plus_IZR, Htr. unfold bufferSize in *.
  unfold slice_int, relative_index.
  destruct (Z.ltb_spec (Int_part r) 0); [lia|].
  destruct (Z.ltb_spec (Int_part r + 4096) 0); [lia|].
  rewrite length_firstn, length_skipn.
  intros Hfull. apply Z.ltb_ge in Hfull. lia.
Qed.

(** Two amounts of fuel above the distance from the offset to the end of
    the buffer give the same result: the loop has ended before either runs
    out. *)
Lemma frameLoop_fuel (meyda : option Ctx) (data : list XR.xreal) (endSample : XR.xreal)
    (fuel1 fuel2 : nat) (r : R) (st : list XR.xreal * nat) :
  (0 <= r)%R ->
  (Z.to_nat (Z.of_nat (List.length data) - XR.truncate r) < fuel1)%nat ->
  (Z.to_nat (Z.of_nat (List.length data) - XR.truncate r) < fuel2)%nat ->
  frameLoop Ctx Meyda_extract meyda data endSample fuel1 (XR.Fin r) st =
  frameLoop Ctx Meyda_extract meyda data endSample fuel2 (XR.Fin r) st.
Proof.
  revert fuel2 r st. induction fuel1 as [|fuel1 IH]; intros fuel2 r st Hr H1 H2; [lia|].
  destruct fuel2 as [|fuel2]; [lia|].
  cbn [frameLoop].
  destruct (lt (XR.Fin r) (sub endSample (of_Z bufferSize))); [|reflexivity].
  destruct (Z.of_nat (List.length (slice data (XR.Fin r) (add (XR.Fin r) (of_Z bufferSize))))
              <? bufferSize) eqn:Hfull; [reflexivity|].
  apply full_chunk_fits in Hfull; [|exact Hr].
  change (add (XR.Fin r) (of_Z hopSize)) with (XR.Fin (r + IZR hopSize)).
  assert (Hr' : (0 <= r + IZR hopSize)%R) by (unfold hopSize; lra).
  destruct (truncate_nonneg r Hr) as [Htr _].
  destruct (truncate_nonneg _ Hr') as [Htr' _].
  apply IH; [exact Hr'| |];
    rewrite Htr', Int_part_plus_IZR; unfold hopSize, bufferSize in *; lia.
Qed.

(** The fuel [accumulateChroma] gives the loop is enough: more fuel changes
    nothing. *)
Lemma accumulateChroma_fuel (meyda : option Ctx) (buffer : AudioBuffer (num := XR.xreal))
    (fuel : nat) :
  (List.length (channelData buffer) < fuel)%nat ->
  frameLoop Ctx Meyda_extract meyda (channelData buffer) (endSample buffer)
    fuel (safeStart buffer) (repeat (of_Z 0) 12, 0%nat)
  = accumulateChroma Ctx Meyda_extract meyda buffer.
Proof.
  intros Hfuel. unfold accumulateChroma.
  destruct fuel as [|fuel]; [lia|].
  generalize (endSample buffer). intros e. unfold safeStart.
  set (startSample := Math_floor _).
  destruct startSample as [s| | |]; cbn [Math_max XR.number XR.Math_max of_Z XR.of_Z XR.lt].
  - unfold XR.Rltb. destruct (Rlt_dec 0 s) as [Hs|Hs].
    + apply frameLoop_fuel; [lra| |];
        destruct (truncate_nonneg s ltac:(lra)) as [-> ?]; lia.
    + apply frameLoop_fuel; [lra| |];
        destruct (truncate_nonneg 0 ltac:(lra)) as [-> ?]; lia.
  - reflexivity.
  - apply frameLoop_fuel; [lra| |];
      destruct (truncate_nonneg 0 ltac:(lra)) as [-> ?]; lia.
  - reflexivity.
Qed.

End FrameLoopFuel.

(** ** Exact arithmetic: a zero denominator *)

Section ZeroDenominator.

Local Open Scope R_scope.

Implicit Types (g h : nat -> XR.xreal) (idx : list nat).

(** The three sums of [correlate] evolve independently. *)
Lemma correlate_step_components (chroma : list XR.xreal) (profile : list (option XR.xreal))
    (meanX meanY : XR.xreal) idx (a b c : XR.xreal) :
  let x i := sub (nth i chroma NaN) meanX in
  let y i := sub (toNumber (nth i profile None)) meanY in
  fold_left (correlate_step chroma profile meanX meanY) idx (a, b, c) =
  (fold_left (fun acc i => add acc (mul (x i) (x i))) idx a,
   fold_left (fun acc i => add acc (mul (y i) (y i))) idx b,
   fold_left (fun acc i => add acc (mul (x i) (y i))) idx c).
Proof.
  cbn zeta. revert a b c. induction idx as [|i idx IH]; intros a b c; [reflexivity|].
  cbn [fold_left]. unfold correlate_step at 2. apply IH.
Qed.

(** A sum that has left the finite numbers does not come back. *)
Lemma sum_stays_not_finite g idx (acc : XR.xreal) :
  (forall r, acc <> XR.Fin r) ->
  forall r, fold_left (fun acc i => add acc (g i)) idx acc <> XR.Fin r.
Proof.
  revert acc. induction idx as [|i idx IH]; intros acc Hacc; [exact Hacc|].
  cbn [fold_left]. apply IH. intros r.
  destruct acc as [a| | |]; [now elim (Hacc a)| | |]; destruct (g i); discriminate.
Qed.

(** A finite sum of squares is at least where it started, and has stayed
    there only if every term was zero. *)
Lemma sum_of_squares g idx (a0 a : R) :
  fold_left (fun acc i => add acc (mul (g i) (g i))) idx (XR.Fin a0) = XR.Fin a ->
  a0 <= a /\ (a = a0 -> forall i, In i idx -> g i = XR.Fin 0).
Proof.
  revert a0. induction idx as [|i idx IH]; intros a0 Hsum.
  - injection Hsum as <-. split; [lra|]. intros _ i [].
  - cbn [fold_left] in Hsum. destruct (g i) as [x| | |] eqn:Hg.
    + apply IH in Hsum as [Hle Hzero].
      pose proof (Rle_0_sqr x) as Hsq. unfold Rsqr in Hsq.
      split; [lra|]. intros -> j [<-|Hj].
      * rewrite Hg. f_equal. nra.
      * apply Hzero; [nra|exact Hj].
    + now apply (sum_stays_not_finite (fun i => mul (g i) (g i))) in Hsum.
    + now apply (sum_stays_not_finite (fun i => mul (g i) (g i))) in Hsum.
    + now apply (sum_stays_not_finite (fun i => mul (g i) (g i))) in Hsum.
Qed.

Lemma sum_of_zero_products g h idx (acc : XR.xreal) :
  (forall i, In i idx -> g i = XR.Fin 0 \/ h i = XR.Fin 0) ->
  zero_or_NaN acc ->
  zero_or_NaN (fold_left (fun acc i => add acc (mul (g i) (h i))) idx acc).
Proof.
  revert acc. induction idx as [|i idx IH]; intros acc Hzero Hacc; [exact Hacc|].
  cbn [fold_left]. apply IH; [intros j Hj; apply Hzero; now right|].
  assert (Hprod : zero_or_NaN (mul (g i) (h i))).
  { destruct (Hzero i (or_introl eq_refl)) as [->| ->].
    - destruct (h i) as [y| | |]; cbn; unfold XR.scale_inf;
        XROrder.dec_cases; try lra; try (now right).
      left. f_equal. ring.
    - destruct (g i) as [x| | |]; cbn; unfold XR.scale_inf;
        XROrder.dec_cases; try lra; try (now right).
      left. f_equal. ring. }
  destruct Hacc as [-> | ->], Hprod as [-> | ->]; cbn; try (now right).
  left. f_equal. ring.
Qed.

Lemma quotient_by_zero_denominator g h idx :
  let sumXx := fold_left (fun acc i => add acc (mul (g i) (g i))) idx (XR.Fin 0) in
  let sumYy := fold_left (fun acc i => add acc (mul (h i) (h i))) idx (XR.Fin 0) in
  let sumXy := fold_left (fun acc i => add acc (mul (g i) (h i))) idx (XR.Fin 0) in
  Math_sqrt (mul sumXx sumYy) = XR.Fin 0 ->
  div sumXy (Math_sqrt (mul sumXx sumYy)) = XR.XNaN.
Proof.
  intros sumXx sumYy sumXy.
  assert (Hzero : (forall i, In i idx -> g i = XR.Fin 0 \/ h i = XR.Fin 0) ->
                  zero_or_NaN sumXy).
  { intros H. apply sum_of_zero_products; [exact H|now left]. }
  destruct sumXx as [a| | |] eqn:Hxx; destruct sumYy as [b| | |] eqn:Hyy;
    cbn; unfold XR.scale_inf; XROrder.dec_cases; try discriminate.
  intros [= Hsqrt]. rewrite Hsqrt.
  apply sqrt_eq_0 in Hsqrt; [|lra].
  apply sum_of_squares in Hxx as [Ha Hx], Hyy as [Hb Hy].
  destruct Hzero as [-> | ->].
  - apply Rmult_integral in Hsqrt as [-> | ->].
    + intros i Hi. left. now apply Hx.
    + intros i Hi. right. now apply Hy.
  - cbn. XROrder.dec_cases; try lra; reflexivity.
  - reflexivity.
Qed.

(** In exact arithmetic a zero denominator comes with a zero (or [NaN])
    numerator: the correlation is [NaN]. *)
Lemma zero_denominator_is_NaN (chroma : list XR.xreal) (profile : list (option XR.xreal)) :
  correlate_denominator chroma profile = XR.Fin 0 ->
  correlate chroma profile = XR.XNaN.
Proof.
  unfold correlate_denominator, correlate, correlate_sums.
  rewrite correlate_step_components.
  set (meanX := div (fold_left add chroma (of_Z 0)) (of_Z 12)).
  set (meanY := div (fold_left (fun a b => add a (toNumber b)) profile (of_Z 0)) (of_Z 12)).
  exact (quotient_by_zero_denominator
           (fun i => sub (nth i chroma NaN) meanX)
           (fun i => sub (toNumber (nth i profile None)) meanY) (seq 0 12)).
Qed.

End ZeroDenominator.

(** ** A buffer with one valid chunk, in exact arithmetic *)

Section ToneExample.

Local Open Scope R_scope.

Lemma peak_fold_unchanged (spectrum : list XR.xreal) (bins : list nat)
    (st : XR.xreal * Z) :
  (forall k, In k bins -> lt (fst st) (nth k spectrum NaN) = false) ->
  fold_left (peak_step spectrum) bins st = st.
Proof.
  revert st. induction bins as [|k bins IH]; intros st Hbins; [reflexivity|].
  cbn [fold_left]. unfold peak_step at 2.
  rewrite (Hbins k) by now left.
  apply IH. intros k' Hk'. apply Hbins. now right.
Qed.

Lemma tone_spectrum_nth (k : nat) :
  (k < 2048)%nat ->
  nth k ExactInputs.tone_spectrum NaN = if (k =? 41)%nat then XR.Fin 1 else XR.Fin 0.
Proof.
  intros Hk. unfold ExactInputs.tone_spectrum.
  destruct (Nat.lt_ge_cases k 41) as [Hlt|Hge].
  - rewrite app_nth1 by (rewrite repeat_length; lia).
    rewrite nth_repeat_lt by assumption.
    destruct (Nat.eqb_spec k 41); [lia|reflexivity].
  - rewrite app_nth2 by (rewrite repeat_length; lia).
    rewrite repeat_length.
    destruct (Nat.eqb_spec k 41) as [->|Hne]; [reflexivity|].
    destruct (k - 41)%nat as [|j] eqn:Hj; [lia|].
    cbn [nth]. apply nth_repeat_lt. lia.
Qed.

Lemma peak_step_take (spectrum : list XR.xreal) (st : XR.xreal * Z) (k : nat) :
  lt (fst st) (nth k spectrum NaN) = true ->
  peak_step spectrum st k = (nth k spectrum NaN, Z.of_nat k).
Proof. intros H. unfold peak_step. now rewrite H. Qed.

Lemma fold_left_cons {A B : Type} (f : A -> B -> A) (b : B) (l : list B) (a : A) :
  fold_left f (b :: l) a = fold_left f l (f a b).
Proof. reflexivity. Qed.

Lemma tone_bins :
  peak_bins ExactInputs.tone_spectrum = (10 :: seq 11 30 ++ 41 :: seq 42 982)%nat.
Proof. vm_compute. reflexivity. Qed.

Lemma tone_spectrum_low (v : XR.xreal) (k : nat) :
  (k < 2048)%nat -> k <> 41%nat -> lt v (XR.Fin 0) = false ->
  lt v (nth k ExactInputs.tone_spectrum NaN) = false.
Proof.
  intros Hk Hne Hv. rewrite tone_spectrum_nth by assumption.
  now destruct (Nat.eqb_spec k 41).
Qed.

(** The peak of the spectrum with one line at bin 41 is that line. *)
Lemma findPeak_tone : findPeak ExactInputs.tone_spectrum = (XR.Fin 1, 41%Z).
Proof.
  assert (H00 : lt (XR.Fin 0) (XR.Fin 0) = false)
    by (cbn; XROrder.dec_cases; [lra|reflexivity]).
  assert (H10 : lt (XR.Fin 1) (XR.Fin 0) = false)
    by (cbn; XROrder.dec_cases; [lra|reflexivity]).
  unfold findPeak. rewrite tone_bins, fold_left_cons.
  rewrite peak_step_take;
    [|rewrite tone_spectrum_nth by lia; cbn; XROrder.dec_cases; [reflexivity|lra]].
  rewrite (tone_spectrum_nth 10) by lia.
  change (if (10 =? 41)%nat then XR.Fin 1 else XR.Fin 0) with (XR.Fin 0).
  rewrite fold_left_app, (peak_fold_unchanged _ (seq 11 30)).
  - rewrite fold_left_cons.
    rewrite peak_step_take;
      [|rewrite tone_spectrum_nth by lia; cbn; XROrder.dec_cases; [reflexivity|lra]].
    rewrite (tone_spectrum_nth 41) by lia.
    change (if (41 =? 41)%nat then XR.Fin 1 else XR.Fin 0) with (XR.Fin 1).
    apply peak_fold_unchanged. intros k Hk. apply in_seq in Hk.
    apply tone_spectrum_low; [lia|lia|exact H10].
  - intros k Hk. apply in_seq in Hk.
    apply tone_spectrum_low; [lia|lia|exact H00].
Qed.

(** The buffer of the example has one chunk, and the chunk is valid. *)
Lemma tone_buffer_has_a_valid_chunk :
  exists d, valid_deviations unit ExactInputs.extract_tone (Some tt)
              ExactInputs.tone_buffer = [d] /\ finite_within 50 d.
Proof.
  unfold valid_deviations.
  replace (chunk_starts (buffer_length ExactInputs.tone_buffer)) with [0%Z]
    by (vm_compute; reflexivity).
  cbn [flat_map app]. unfold chunk_deviation. cbn [ExactInputs.extract_tone].
  rewrite findPeak_tone. cbn [fst snd].
  replace (lt (of_Q 0.1) (XR.Fin 1)) with true
    by (cbn; unfold Q2R; cbn; XROrder.dec_cases; [reflexivity|lra]).
  eexists. split; [reflexivity|].
  change (sampleRate ExactInputs.tone_buffer) with (XR.Fin 44100).
  change (of_Z fftSize) with (XR.Fin 4096).
  rewrite div_finite by lra.
  change (mul (of_Z 41) (XR.Fin (44100 / 4096))) with (XR.Fin (41 * (44100 / 4096))).
  apply spec_cents_bounds. lra.
Qed.

End ToneExample.

(** ** Binary64: buffers shorter than one window *)

(** In binary64, at 44100 Hz, every buffer of fewer than 4096 samples has
    the key ["Unknown"], whatever Meyda would return; so has the buffer of
    exactly 4096 samples, and the buffer of 4097 samples is the first that
    has a frame. *)
Lemma short_buffers_binary64 :
  forallb (unknown_key_at 44100) (seq 0 (Z.to_nat 4096)) = true /\
  unknown_key_at 44100 (Z.to_nat 4096) = true /\
  unknown_key_at 44100 (Z.to_nat 4097) = false.
Proof.
  evaluate.
Qed.
